(** * Code-growth CSV pipeline: the aggregator [code_growth_total.py] and the
      per-repository series builder of [create_loc_csv.py]

    The two scripts are embedded as pure functions over the values they
    exchange with their environment.

    - The aggregator reads every [code_growth-*.csv] of the directory through
      [csv.reader]; the embedding takes the files in the order [os.listdir]
      enumerates them, each as the list of rows the reader yields (a row is a
      list of [str]).  It writes rows through [csv.writer]; the embedding
      returns the list of rows handed to [writerow], header first.
    - Python dictionaries ([defaultdict]) are finite maps [gmap string _],
      the Python [set] of language names is a [gset string], and [sorted] on
      [str] is a merge sort for the lexicographic order of the strings.
    - Exceptions are explicit: a computation returns [Ok v] or [Raise e].
      The exceptions are those of the processing of the rows; opening,
      decoding and parsing the files is taken to have given the rows. *)

From Stdlib Require Import Ascii String.
From stdpp Require Import gmap strings list sorting.

Local Open Scope Z_scope.
#[local] Set Warnings "-clear-no-such-hyp".

(** ** Exceptions and fallible computations *)

Inductive exn :=
| StopIteration   (* [next(reader)] on a file without any row *)
| ValueError      (* [int(s)] on a string that is no integer literal *)
| IndexError.     (* [row[i]] with [i] beyond the row *)

Inductive result (A : Type) :=
| Ok (a : A)
| Raise (e : exn).
Arguments Ok {A} a.
Arguments Raise {A} e.

Global Instance exn_eq_dec : EqDecision exn.
Proof. solve_decision. Defined.

Global Instance result_ret : MRet result := λ A a, Ok a.
Global Instance result_bind : MBind result := λ A B k m,
  match m with
  | Ok a => k a
  | Raise e => Raise e
  end.

Definition succeeds {A} (m : result A) : Prop :=
  match m with Ok _ => True | Raise _ => False end.

(** ** Python builtins used by the scripts *)

Module Py.

(** [row[i]] on a list. *)
Definition getitem {A} (l : list A) (i : nat) : result A :=
  match l !! i with
  | Some x => Ok x
  | None => Raise IndexError
  end.

(** Truth value of a [str]: only the empty string is false. *)
Definition truthy (s : string) : bool :=
  match s with
  | EmptyString => false
  | String _ _ => true
  end.

Definition digit_value (c : ascii) : option Z :=
  let n := Z.of_N (N_of_ascii c) in
  if bool_decide (48 ≤ n ≤ 57) then Some (n - 48) else None.

(** The white space of ASCII, which [strip] removes at both ends of the
    literal given to [int]. (The [str.strip()] of [get_env_list] removes the
    white space of Unicode: that one is [EnvUtils.strip].) *)
Definition is_space (c : ascii) : bool :=
  let n := N_of_ascii c in
  bool_decide (n = 32 ∨ 9 ≤ n ≤ 13 ∨ 28 ≤ n ≤ 31)%N.

Fixpoint lstrip (s : string) : string :=
  match s with
  | String c s' => if is_space c then lstrip s' else s
  | EmptyString => EmptyString
  end.

Definition strip (s : string) : string :=
  String.rev (lstrip (String.rev (lstrip s))).

(** Digits of a decimal literal, most significant first; a single
    underscore is allowed between two digits. [after_digit] tells whether
    the previous character was a digit. *)
Fixpoint digits (acc : Z) (after_digit : bool) (s : string) : option Z :=
  match s with
  | EmptyString => if after_digit then Some acc else None
  | String c s' =>
      match digit_value c with
      | Some d => digits (10 * acc + d) true s'
      | None =>
          if bool_decide (c = "_"%char) && after_digit
          then match s' with
               | EmptyString => None
               | String c' _ =>
                   if digit_value c' is Some _ then digits acc false s'
                   else None
               end
          else None
      end
  end.

(** [int(s)] for a [str] in base 10: surrounding white space is dropped,
    one sign is allowed, and what remains must be decimal digits.  [None]
    stands for the [ValueError] Python raises. Scope of the model: ASCII
    literals within the interpreter's limit on the number of digits. *)
Definition int (s : string) : option Z :=
  match strip s with
  | String "-" s' => Z.opp <$> digits 0 false s'
  | String "+" s' => digits 0 false s'
  | s' => digits 0 false s'
  end.

(** [sorted] on a list of [str]: [str] is compared character by character,
    which for UTF-8 text is the order of [String.le] on the bytes. *)
Definition sorted (l : list string) : list string :=
  merge_sort String.le l.

(** A [datetime], and [strftime("%Y-%m-%d %H:%M:%S")] on it (line 221 of
    [create_loc_csv.py]), for fields that fit their width. *)
Record datetime := {
  year : nat; month : nat; day : nat;
  hour : nat; minute : nat; second : nat;
}.

Definition pad2 (n : nat) : string :=
  String (ascii_of_nat (48 + n / 10)) (String (ascii_of_nat (48 + n mod 10)) "").

Definition pad4 (n : nat) : string := pad2 (n / 100) +:+ pad2 (n mod 100).

Definition strftime (t : datetime) : string :=
  pad4 (year t) +:+ "-" +:+ pad2 (month t) +:+ "-" +:+ pad2 (day t) +:+ " "
  +:+ pad2 (hour t) +:+ ":" +:+ pad2 (minute t) +:+ ":" +:+ pad2 (second t).

Definition in_range (t : datetime) : Prop :=
  (year t < 100 * 100 ∧ month t < 100 ∧ day t < 100
   ∧ hour t < 100 ∧ minute t < 100 ∧ second t < 100)%nat.

(** Chronological order: the order of (year, month, day, hour, minute,
    second). *)
Fixpoint lexico_lt (l1 l2 : list nat) : Prop :=
  match l1, l2 with
  | x :: l1', y :: l2' => (x < y)%nat ∨ (x = y ∧ lexico_lt l1' l2')
  | _, _ => False
  end.

Definition earlier (t1 t2 : datetime) : Prop :=
  lexico_lt [year t1; month t1; day t1; hour t1; minute t1; second t1]
            [year t2; month t2; day t2; hour t2; minute t2; second t2].

End Py.

(** ** The aggregator: [code_growth_total.py] *)

Definition INITIAL_DATE : string := "2024-11-01 00:00:00".

(** A cell handed to [csv.writer]: the script writes [str] and [int]. *)
Inductive cell :=
| Str (s : string)
| Int (n : Z).

Global Instance cell_eq_dec : EqDecision cell.
Proof. solve_decision. Defined.

Abbreviation csv_row := (list string).
Abbreviation csv_file := (list (list string)).
(** [defaultdict(int)] for one date and the [defaultdict] of those. *)
Abbreviation accumulator := (gmap string Z).
Abbreviation combined := (gmap string (gmap string Z)).

Section Aggregator.

(** The conversion [int()] applied to the fields, [None] when it raises
    [ValueError]. The development holds for every such conversion; [Py.int]
    is the instance used on concrete inputs. *)
Variable int : string → option Z.

Definition to_int (s : string) : result Z :=
  match int s with
  | Some n => Ok n
  | None => Raise ValueError
  end.

(** [int(f) if f else 0] *)
Definition int_or_zero (f : string) : result Z :=
  if Py.truthy f then to_int f else Ok 0.

(** [data[key]] on a [defaultdict(int)], and [combined_data[date]]. *)
Definition get_count (data : accumulator) (key : string) : Z :=
  default 0 (data !! key).
Definition get_data (cd : combined) (date : string) : accumulator :=
  default ∅ (cd !! date).

(** [combined_data[date][key] += n] *)
Definition add_count (date key : string) (n : Z) (cd : combined) : combined :=
  let data := get_data cd date in
  <[date := <[key := get_count data key + n]> data]> cd.

(** Lines 79-82: the loop over [enumerate(languages)], from index [i]. *)
Fixpoint add_languages (date : string) (row : csv_row) (i : nat)
    (languages : list string) (cd : combined) : result combined :=
  match languages with
  | [] => Ok cd
  | lang :: rest =>
      if bool_decide (i + 6 < length row)%nat then
        f ← Py.getitem row (i + 6);
        if Py.truthy f then
          lang_loc ← to_int f;
          add_languages date row (S i) rest (add_count date lang lang_loc cd)
        else add_languages date row (S i) rest cd
      else add_languages date row (S i) rest cd
  end.

(** Lines 64-82: the body of the loop over the rows of one file. *)
Definition process_row (languages : list string) (cd : combined)
    (row : csv_row) : result combined :=
  if bool_decide (length row < 6)%nat then Ok cd
  else
    repo_name ← Py.getitem row 0;
    commit_hash ← Py.getitem row 1;
    date ← Py.getitem row 2;
    author ← Py.getitem row 3;
    f4 ← Py.getitem row 4;
    lines_of_code ← int_or_zero f4;
    f5 ← Py.getitem row 5;
    delta ← int_or_zero f5;
    add_languages date row 0 languages (add_count date "total_loc" lines_of_code cd).

Fixpoint process_rows (languages : list string) (cd : combined)
    (rows : list csv_row) : result combined :=
  match rows with
  | [] => Ok cd
  | row :: rest =>
      cd' ← process_row languages cd row;
      process_rows languages cd' rest
  end.

(** Lines 55-82: one file; [next(reader)] raises on a file without rows. *)
Definition process_file (st : combined * gset string) (f : csv_file)
    : result (combined * gset string) :=
  match f with
  | [] => Raise StopIteration
  | header :: rows =>
      let languages := drop 6 header in
      let all_languages := st.2 ∪ list_to_set languages in
      cd ← process_rows languages st.1 rows;
      Ok (cd, all_languages)
  end.

Fixpoint process_files (st : combined * gset string) (fs : list csv_file)
    : result (combined * gset string) :=
  match fs with
  | [] => Ok st
  | f :: rest =>
      st' ← process_file st f;
      process_files st' rest
  end.

(** Lines 102-110: the row written for one date. *)
Definition data_row (cd : combined) (sorted_languages : list string)
    (date : string) : list cell :=
  let data := get_data cd date in
  [Str date; Int (get_count data "total_loc")]
    ++ ((λ lang, Int (get_count data lang)) <$> sorted_languages).

(** Lines 85-110: the rows handed to the writer, header first. *)
Definition write_output (cd : combined) (all_languages : gset string)
    : list (list cell) :=
  let sorted_languages := Py.sorted (elements all_languages) in
  let header := Str <$> "date" :: "total_loc" :: sorted_languages in
  let initial_row :=
    [Str INITIAL_DATE; Int 0] ++ replicate (length sorted_languages) (Int 0) in
  let sorted_dates :=
    Py.sorted (filter (λ d, d ≠ INITIAL_DATE) (elements (dom cd))) in
  header :: initial_row :: (data_row cd sorted_languages <$> sorted_dates).

(** What a run of [main] does. *)
Inductive outcome :=
| NoFilesFound                        (* line 40: message and return *)
| Crashed (e : exn)                   (* uncaught exception, nothing written *)
| Written (rows : list (list cell)).  (* the output file *)

Definition main (csv_files : list csv_file) : outcome :=
  match csv_files with
  | [] => NoFilesFound
  | _ =>
      match process_files (∅, ∅) csv_files with
      | Raise e => Crashed e
      | Ok (cd, all_languages) => Written (write_output cd all_languages)
      end
  end.

(** The rows of the output file, when the run wrote it. *)
Definition written (o : outcome) : option (list (list cell)) :=
  match o with
  | Written rows => Some rows
  | _ => None
  end.

(** *** The input as the specification reads it

    A record is a data row of at least 6 fields, taken with the language
    names of its file's header. *)

Definition sum_with {A} (f : A → Z) (l : list A) : Z :=
  foldr (λ a acc, f a + acc) 0 l.

(** Value of a field as the loops read it: the empty field counts 0. *)
Definition field_value (f : string) : Z :=
  if Py.truthy f then default 0 (int f) else 0.

Definition field (row : csv_row) (i : nat) : string :=
  default "" (row !! i).

Definition records_of (f : csv_file) : list (list string * csv_row) :=
  match f with
  | [] => []
  | header :: rows =>
      (λ row, (drop 6 header, row))
        <$> filter (λ row : csv_row, 6 ≤ length row)%nat rows
  end.

Definition all_records (fs : list csv_file) : list (list string * csv_row) :=
  fs ≫= records_of.

Definition record_date (r : list string * csv_row) : string := field r.2 2.
Definition record_total (r : list string * csv_row) : Z :=
  field_value (field r.2 4).

(** Sum of the fields of [row] under the columns named [lang], the columns
    [languages] starting at position [i + 6]. *)
Fixpoint column_sum (lang : string) (row : csv_row) (i : nat)
    (languages : list string) : Z :=
  match languages with
  | [] => 0
  | name :: rest =>
      (if decide (name = lang) then field_value (field row (i + 6)) else 0)
      + column_sum lang row (S i) rest
  end.

Definition record_language (lang : string) (r : list string * csv_row) : Z :=
  column_sum lang r.2 0 r.1.

Definition on_date (D : string) (rs : list (list string * csv_row))
    : list (list string * csv_row) :=
  filter (λ r, record_date r = D) rs.

(** What a record adds to the count kept under [key] for its date: its
    [lines_of_code] to the entry of the total, and its fields under the
    columns named [key]. *)
Definition record_count (key : string) (r : list string * csv_row) : Z :=
  (if decide (key = "total_loc") then record_total r else 0)
  + record_language key r.

Definition record_dates (rs : list (list string * csv_row)) : gset string :=
  list_to_set (record_date <$> rs).

(** A field [int()] accepts, or that is empty and not converted at all. *)
Definition convertible (f : string) : Prop :=
  Py.truthy f = true → is_Some (int f).

(** The fields the loop body converts: [lines_of_code], [delta] and the
    fields under the language columns of the header. *)
Definition row_convertible (languages : list string) (row : csv_row) : Prop :=
  Forall (λ j, convertible (field row j)) (4 :: 5 :: seq 6 (length languages))%nat.

(** A file the loops read to its end: it has a header, and the fields
    converted in its records are accepted by [int()]. *)
Definition convertible_file (f : csv_file) : Prop :=
  f ≠ [] ∧ Forall (λ r, row_convertible r.1 r.2) (records_of f).

(** The language names of all headers. *)
Definition header_languages (fs : list csv_file) : gset string :=
  ⋃ ((λ f : csv_file, list_to_set (drop 6 (default [] (head f)))) <$> fs).

(** The language columns of the output as the specification gives them:
    the language names of all headers, sorted. *)
Definition output_languages (fs : list csv_file) : list string :=
  Py.sorted (elements (header_languages fs)).

(** The numbers of a written row: its total and its language values. *)
Definition cell_int (c : cell) : Z :=
  match c with
  | Int n => n
  | Str _ => 0
  end.
Definition row_total (row : list cell) : Z :=
  cell_int (default (Int 0) (row !! 1%nat)).
Definition row_language_values (row : list cell) : list Z :=
  cell_int <$> drop 2 row.

(** The invariant of a record: every language column of the header has a
    field, and [lines_of_code] is the sum of the fields under them. *)
Definition record_invariant (r : list string * csv_row) : Prop :=
  (6 + length r.1 ≤ length r.2)%nat
  ∧ record_total r
    = sum_with (λ j, field_value (field r.2 (j + 6))) (seq 0 (length r.1)).

(** A record dated at the anchor, and a file without such records. *)
Definition is_anchor_record (row : csv_row) : Prop :=
  (6 ≤ length row)%nat ∧ field row 2 = INITIAL_DATE.

Definition without_anchor_records (f : csv_file) : csv_file :=
  match f with
  | [] => []
  | header :: rows => header :: filter (λ row, ¬ is_anchor_record row) rows
  end.

(** The date a written row starts with. *)
Definition row_date (row : list cell) : string :=
  match row with
  | Str d :: _ => d
  | _ => ""
  end.

(** [a < b] on [str]. *)
Definition date_lt : relation string := strict String.le.

End Aggregator.


(** ** The per-repository series builder: [generate_csv] of [create_loc_csv.py]

    The loop over the commits of one repository (lines 207-270). What the
    collaborators answer for a commit is part of the input: [cloc] is the
    dictionary parsed from the output of the line counter at that commit, an
    entry holding its ["code"] count when it has one, and [None] when the
    checkout, reading the metadata, the counter or the parsing raises. What
    the two writes of lines 262-266 do is part of the input too: they come
    after the update of [prev_total_lines] in the same [try], so a write
    that raises leaves the commit without a row and the state advanced.

    Rows are the lists handed to [writerow]. The combined file is written
    through one handle, so the rows handed to [combined_writer] are its
    rows; a write that raises is taken to leave nothing in it. The rows of
    the file of a repository are handed to a writer on a
    handle opened for appending while the handle that got the header and
    the initial row is still open: [repo_rows] lists what that writer got,
    not what the file holds in the end. *)

Module Builder.

Record commit := {
  hexsha : string;
  commit_date : string;
  author : string;
  cloc : option (list (string * option Z));
}.

(** Lines 237-241: the loop over the keys of [cloc_data]. Reading ["code"]
    from an entry without it raises. *)
Fixpoint count_lines (cloc_data : list (string * option Z))
    (lang_lines : gmap string Z) (total_lines : Z)
    : option (gmap string Z * Z) :=
  match cloc_data with
  | [] => Some (lang_lines, total_lines)
  | (lang, entry) :: rest =>
      if bool_decide (lang ∉ ["header"; "SUM"])
         && bool_decide (is_Some (lang_lines !! lang))
      then code ← entry;
           count_lines rest (<[lang := code]> lang_lines) (total_lines + code)
      else count_lines rest lang_lines total_lines
  end.

(** Lines 215-241: everything of the [try] block before the delta. *)
Definition count (language_columns : list string) (c : commit)
    : option (gmap string Z * Z) :=
  cloc_data ← cloc c;
  count_lines cloc_data
    (list_to_map ((λ lang, (lang, 0)) <$> language_columns)) 0.

(** Lines 248-259 *)
Definition row_data (repo_short_name : string) (language_columns : list string)
    (c : commit) (lang_lines : gmap string Z) (total_lines delta : Z)
    : list cell :=
  [Str repo_short_name; Str (String.substring 0 7 (hexsha c));
   Str (commit_date c); Str (author c); Int total_lines; Int delta]
    ++ ((λ lang, Int (default 0 (lang_lines !! lang))) <$> language_columns).

(** What the writes of lines 262-266 do for a commit. *)
Inductive write_outcome :=
| BothWritten           (* both [writerow] complete *)
| RepoWriteRaises       (* the write to the repository's file raises *)
| CombinedWriteRaises.  (* that row is written, [combined_writer] raises *)

Global Instance write_outcome_eq_dec : EqDecision write_outcome.
Proof. solve_decision. Defined.

Record loop_state := {
  prev_total_lines : Z;
  repo_rows : list (list cell);      (* handed to the repository's writer *)
  combined_rows : list (list cell);  (* handed to [combined_writer] *)
}.

(** Lines 211-270: one turn of the loop, for the commit of index [i]. *)
Definition process_commit (repo_short_name : string)
    (language_columns : list string) (st : loop_state) (i : nat)
    (cw : commit * write_outcome) : loop_state :=
  match count language_columns cw.1 with
  | None => st   (* [except]: the error is printed, the loop goes on *)
  | Some (lang_lines, total_lines) =>
      let delta :=
        if bool_decide (0 < i)%nat then total_lines - prev_total_lines st
        else total_lines in
      let row :=
        row_data repo_short_name language_columns cw.1 lang_lines
          total_lines delta in
      {| prev_total_lines := total_lines;
         repo_rows :=
           match cw.2 with
           | RepoWriteRaises => repo_rows st
           | _ => repo_rows st ++ [row]
           end;
         combined_rows :=
           match cw.2 with
           | BothWritten => combined_rows st ++ [row]
           | _ => combined_rows st
           end |}
  end.

(** [for i, commit in enumerate(commits)], from index [i]. *)
Fixpoint commit_loop (repo_short_name : string) (language_columns : list string)
    (st : loop_state) (i : nat) (commits : list (commit * write_outcome))
    : loop_state :=
  match commits with
  | [] => st
  | cw :: rest =>
      commit_loop repo_short_name language_columns
        (process_commit repo_short_name language_columns st i cw) (S i) rest
  end.

(** Lines 170-182 *)
Definition initial_row (repo_short_name : string) (language_columns : list string)
    : list cell :=
  [Str repo_short_name; Str "initial"; Str INITIAL_DATE; Str "N/A"; Int 0; Int 0]
    ++ replicate (length language_columns) (Int 0).

(** The rows of the combined file for one repository when [generate_csv]
    runs to its end: the initial row, then, when the second clone succeeds,
    the rows the loop hands to [combined_writer]. *)
Definition combined_series (repo_short_name : string)
    (language_columns : list string) (clone_ok : bool)
    (commits : list (commit * write_outcome)) : list (list cell) :=
  initial_row repo_short_name language_columns
  :: (if clone_ok
      then combined_rows
             (commit_loop repo_short_name language_columns
                {| prev_total_lines := 0; repo_rows := []; combined_rows := [] |}
                0 commits)
      else []).

(** *** The series as the specification reads it *)

(** The total of a commit that was processed, [None] for a failed one. *)
Definition total_of (language_columns : list string) (c : commit) : option Z :=
  snd <$> count language_columns c.

(** The total of the last processed commit among [earlier], 0 without one. *)
Definition previous_total (language_columns : list string)
    (earlier : list commit) : Z :=
  default 0 (last (omap (total_of language_columns) earlier)).

End Builder.

(** ** Reading the rows of a series *)

Module Series.

Definition row_total_loc (row : list cell) : Z :=
  cell_int (default (Int 0) (row !! 4%nat)).
Definition row_delta (row : list cell) : Z :=
  cell_int (default (Int 0) (row !! 5%nat)).
Definition row_language_values (row : list cell) : list Z :=
  cell_int <$> drop 6 row.

(** An entry of the counter's dictionary that the loop of lines 237-241
    counts: its key is no meta entry and is one of the language columns. *)
Definition counted_entry (language_columns : list string)
    (e : string * option Z) : Prop :=
  (e.1 ∉ ["header"; "SUM"]) ∧ (e.1 ∈ language_columns).

Global Instance counted_entry_dec language_columns e :
  Decision (counted_entry language_columns e).
Proof. unfold counted_entry. apply _. Defined.

End Series.

(** ** The first pass: [process_repository] and [main] of [create_loc_csv.py]

    What the first pass sees of a commit: whether its checkout succeeds
    (line 89, outside the inner [try]) and the keys of the dictionary parsed
    from the output of the counter, [None] when the counter or the parsing
    raises (lines 90-105). *)

Module Discovery.

Record analysed := {
  checkout_ok : bool;
  keys : option (list string);
}.

(** Lines 85-105: the loop over the commits. A checkout that raises leaves
    the loop, and the exception is caught at line 108. *)
Fixpoint collect (language_set : gset string) (commits : list analysed)
    : option (gset string) :=
  match commits with
  | [] => Some language_set
  | c :: rest =>
      if checkout_ok c then
        match keys c with
        | Some cloc_data =>
            collect (language_set
                     ∪ list_to_set (filter (λ lang, lang ∉ ["header"; "SUM"])
                                      cloc_data))
                    rest
        | None => collect language_set rest
        end
      else None
  end.

(** Lines 54-110. [clone_ok] is the result of [clone_repository];
    [repo_ok] tells whether opening the repository, checking out its default
    branch and listing its commits raise nothing. [None] stands for the
    pair [(None, None)]. *)
Definition process_repository (clone_ok repo_ok : bool)
    (commits : list analysed) : option (list analysed * list string) :=
  if clone_ok then
    if repo_ok then
      language_set ← collect ∅ commits;
      Some (commits, Py.sorted (elements language_set))
    else None
  else None.

(** Line 126: [if commits and languages]. *)
Definition kept (r : option (list analysed * list string)) : bool :=
  match r with
  | Some (_ :: _, _ :: _) => true
  | _ => false
  end.

(** Lines 120-134: the language columns, from the results of
    [process_repository] for the repositories of [REPOS]. *)
Definition language_columns
    (results : list (option (list analysed * list string))) : list string :=
  Py.sorted (elements (⋃ ((λ r, match r with
                                | Some (_, languages) =>
                                    if kept r then list_to_set languages else ∅
                                | None => ∅
                                end) <$> results) : gset string)).

End Discovery.

(** ** The short name of a repository *)

Module Utils.

(** [s.split(sep)]: the pieces of [s] between the occurrences of [sep],
    found from the left and not overlapping; an empty [sep] raises
    [ValueError]. [skip] counts the characters of an occurrence still to be
    passed over, [cur] is the piece read so far. *)
Fixpoint split_go (sep : string) (skip : nat) (cur s : string) : list string :=
  match s with
  | EmptyString => [cur]
  | String c s' =>
      match skip with
      | S k => split_go sep k cur s'
      | O =>
          if String.prefix sep s
          then cur :: split_go sep (String.length sep - 1) "" s'
          else split_go sep 0 (cur +:+ String c "") s'
      end
  end.

Definition split (s sep : string) : result (list string) :=
  match sep with
  | EmptyString => Raise ValueError
  | _ => Ok (split_go sep 0 "" s)
  end.

(** [l[-1]] on a list. *)
Definition last_item {A} (l : list A) : result A :=
  match last l with
  | Some x => Ok x
  | None => Raise IndexError
  end.

(** [repo_name.split("/")[-1]] (lines 62 and 162 of [create_loc_csv.py],
    line 23 of [git_utils.py]). *)
Definition last_segment (s : string) : result string :=
  parts ← split s "/";
  last_item parts.

End Utils.

(** ** [utils/env_utils.py]: lists read from the environment

    The value of an environment variable is any Python string. It is a list
    of characters here, of any type with a decidable equality, and
    [isspace] tells the characters that [str.strip()] removes: the white
    space of Unicode in Python. *)

Module EnvUtils.

Section Text.

Context {char : Type} `{EqDecision char}.
Variable isspace : char → bool.

(** [s.startswith(prefix)] *)
Fixpoint startswith (s prefix : list char) {struct prefix} : bool :=
  match prefix, s with
  | [], _ => true
  | a :: prefix', b :: s' => bool_decide (a = b) && startswith s' prefix'
  | _ :: _, [] => false
  end.

(** [s.split(sep)], as [Utils.split] *)
Fixpoint split_go (sep : list char) (skip : nat) (cur s : list char)
    : list (list char) :=
  match s with
  | [] => [cur]
  | c :: s' =>
      match skip with
      | S k => split_go sep k cur s'
      | O =>
          if startswith s sep
          then cur :: split_go sep (length sep - 1) [] s'
          else split_go sep 0 (cur ++ [c]) s'
      end
  end.

Definition split (s sep : list char) : result (list (list char)) :=
  match sep with
  | [] => Raise ValueError
  | _ => Ok (split_go sep 0 [] s)
  end.

(** [s.lstrip()], [s.rstrip()] and [s.strip()] *)
Fixpoint lstrip (s : list char) : list char :=
  match s with
  | [] => []
  | c :: s' => if isspace c then lstrip s' else s
  end.

Definition rstrip (s : list char) : list char := reverse (lstrip (reverse s)).

Definition strip (s : list char) : list char := rstrip (lstrip s).

(** The truth value of a string. *)
Definition truthy (s : list char) : bool := bool_decide (s ≠ []).

(** [sep.join(items)] *)
Fixpoint join (sep : list char) (items : list (list char)) : list char :=
  match items with
  | [] => []
  | [item] => item
  | item :: rest => item ++ sep ++ join sep rest
  end.

(** [get_env_list] (lines 46-63): [value] is [os.environ.get(var_name)],
    [None] when the variable is not set; [default] is [None] for the
    default argument. *)
Definition get_env_list (value : option (list char))
    (default : option (list (list char))) (separator : list char)
    : result (list (list char)) :=
  match value with
  | None | Some [] => Ok (match default with Some d => d | None => [] end)
  | Some v =>
      parts ← split v separator;
      Ok (strip <$> filter (λ item, truthy (strip item) = true)
                         (parts : list (list char)))
  end.

(** No white space at either end. *)
Definition stripped (item : list char) : Prop :=
  (∀ c, head item = Some c → isspace c = false)
  ∧ (∀ c, last item = Some c → isspace c = false).

End Text.

(** The characters of Python as code points, and the white space that
    [str.strip()] removes: the characters of bidirectional type WS, B or S
    and of category Zs. *)
Definition isspace (c : N) : bool :=
  bool_decide (c ∈ [9; 10; 11; 12; 13; 28; 29; 30; 31; 32; 133; 160; 5760;
                    8232; 8233; 8239; 8287; 12288]%N)
  || bool_decide (8192 ≤ c ≤ 8202)%N.

(** The code points of a string of ASCII characters. *)
Definition code_points (s : string) : list N :=
  (λ a, N_of_ascii a) <$> list_ascii_of_string s.

End EnvUtils.



(** ** Concrete inputs *)

Module Examples.

Definition header_of (languages : list string) : csv_row :=
  ["repo_name"; "commit_hash"; "datetime"; "author"; "lines_of_code"; "delta"]
    ++ languages.

Definition row_of (date loc : string) (fields : list string) : csv_row :=
  ["repo"; "abc1234"; date; "someone"; loc; "0"] ++ fields.

(** [lines_of_code] is no integer literal. *)
Definition bad_row : csv_row := row_of "2025-01-01 00:00:00" "abc" ["1"].

(** A row shorter than its header, with an empty [lines_of_code]. *)
Definition ragged_row : csv_row := row_of "2025-01-01 00:00:00" "" ["4"; ""].

Definition new_year : string := "2025-01-01 00:00:00".

(** Two series reporting 100 lines on the date [D], one for the language
    A and one for the language B. *)
Definition series_A (D : string) : csv_file :=
  [header_of ["A"]; row_of D "100" ["100"]].
Definition series_B (D : string) : csv_file :=
  [header_of ["B"]; row_of D "100" ["100"]].

(** A record dated before the anchor. *)
Definition early_input : list csv_file :=
  [[header_of ["Python"]; row_of "2023-05-01 10:00:00" "7" ["7"]]].

(** A record dated at the anchor, with counts that are not 0. *)
Definition anchored_input : list csv_file :=
  [[header_of ["Python"]; row_of INITIAL_DATE "9" ["9"];
    row_of new_year "3" ["3"]]].

(** A language column named like the entry of the total. *)
Definition collision_input : list csv_file :=
  [[header_of ["A"; "total_loc"]; row_of new_year "3" ["2"; "1"]]].
Definition empty_collision_input : list csv_file :=
  [[header_of ["total_loc"]; row_of new_year "5" [""]]].

(** Three commits of a repository; the line counter fails on the second. *)
Definition commit_1 : Builder.commit :=
  {| Builder.hexsha := "1111111aaaa";
     Builder.commit_date := "2025-01-01 10:00:00";
     Builder.author := "ann";
     Builder.cloc :=
       Some [("header", None); ("Python", Some 10); ("SUM", Some 10)] |}.
Definition commit_2 : Builder.commit :=
  {| Builder.hexsha := "2222222bbbb";
     Builder.commit_date := "2025-01-02 10:00:00";
     Builder.author := "bob";
     Builder.cloc := None |}.
Definition commit_3 : Builder.commit :=
  {| Builder.hexsha := "3333333cccc";
     Builder.commit_date := "2025-01-03 10:00:00";
     Builder.author := "ann";
     Builder.cloc :=
       Some [("header", None); ("Python", Some 15); ("SUM", Some 15)] |}.
Definition commits : list Builder.commit := [commit_1; commit_2; commit_3].

End Examples.

(** ** More concrete inputs *)

Module MoreExamples.

Definition february : string := "2025-02-01 00:00:00".

(** Series of two repositories with different languages and dates. *)
Definition two_dates : list csv_file :=
  [Examples.series_A Examples.new_year; Examples.series_B february].

Definition good_row : csv_row :=
  Examples.row_of Examples.new_year "3" ["3"].

(** What the first pass sees of the three commits of [Examples.commits]. *)
Definition analysed_1 : Discovery.analysed :=
  {| Discovery.checkout_ok := true;
     Discovery.keys := Some ["header"; "Python"; "SUM"] |}.
Definition analysed_2 : Discovery.analysed :=
  {| Discovery.checkout_ok := true; Discovery.keys := None |}.
Definition first_pass_inputs : list (bool * bool * list Discovery.analysed) :=
  [(true, true, [analysed_1; analysed_2; analysed_1]); (false, true, [])].

(** Four commits of 10, 12, 15 and 9 lines, all of them counted; the write
    to the file of the repository raises for the second (an author name that
    the encoding of the file cannot hold, say). *)
Definition commit_12 : Builder.commit :=
  {| Builder.hexsha := "2222222dddd";
     Builder.commit_date := "2025-01-02 10:00:00";
     Builder.author := "bob";
     Builder.cloc :=
       Some [("header", None); ("Python", Some 12); ("SUM", Some 12)] |}.
Definition commit_9 : Builder.commit :=
  {| Builder.hexsha := "4444444eeee";
     Builder.commit_date := "2025-01-04 10:00:00";
     Builder.author := "ann";
     Builder.cloc :=
       Some [("header", None); ("Python", Some 9); ("SUM", Some 9)] |}.
Definition commits_and_writes : list (Builder.commit * Builder.write_outcome) :=
  [(Examples.commit_1, Builder.BothWritten);
   (commit_12, Builder.RepoWriteRaises);
   (Examples.commit_3, Builder.BothWritten);
   (commit_9, Builder.BothWritten)].

(** The three commits of [Examples.commits] with every write completing. *)
Definition all_written : list (Builder.commit * Builder.write_outcome) :=
  (λ c, (c, Builder.BothWritten)) <$> Examples.commits.

End MoreExamples.

(** * Properties of the aggregator *)

Section AggregatorFacts.

Variable int : string → option Z.

Local Abbreviation value cd D K := (get_count (get_data cd D) K).

Lemma value_add_count date key n cd D K :
  value (add_count date key n cd) D K
  = value cd D K + (if decide (date = D ∧ key = K) then n else 0).
Proof.
  unfold add_count, get_data, get_count.
  destruct (decide (date = D)) as [->|Hd].
  - rewrite lookup_insert_eq. simpl.
    destruct (decide (key = K)) as [->|Hk].
    + rewrite lookup_insert_eq. simpl.
      rewrite decide_True by done. done.
    + rewrite lookup_insert_ne by done.
      rewrite decide_False by (by intros [??]). lia.
  - rewrite lookup_insert_ne by done.
    rewrite decide_False by (by intros [??]). lia.
Qed.

Lemma dom_add_count date key n cd :
  dom (add_count date key n cd) = {[date]} ∪ dom cd.
Proof. unfold add_count. by rewrite dom_insert_L. Qed.

Lemma getitem_lookup (row : csv_row) i f :
  row !! i = Some f → Py.getitem row i = Ok f ∧ field row i = f.
Proof. intros H. unfold Py.getitem, field. by rewrite H. Qed.

Lemma field_beyond (row : csv_row) i : (length row ≤ i)%nat → field row i = "".
Proof. intros H. unfold field. by rewrite lookup_ge_None_2. Qed.

Lemma to_int_Ok f n : to_int int f = Ok n ↔ int f = Some n.
Proof. unfold to_int. destruct (int f); naive_solver. Qed.

Lemma to_int_cases f :
  (∃ n, int f = Some n ∧ to_int int f = Ok n)
  ∨ (int f = None ∧ to_int int f = Raise ValueError).
Proof. unfold to_int. destruct (int f); eauto. Qed.

(** [int(f) if f else 0] yields the value of the field, or raises
    [ValueError] on a field [int()] rejects. *)
Lemma int_or_zero_cases f :
  (convertible int f ∧ int_or_zero int f = Ok (field_value int f))
  ∨ (¬ convertible int f ∧ int_or_zero int f = Raise ValueError).
Proof.
  unfold int_or_zero, field_value, convertible.
  destruct (Py.truthy f) eqn:Ht.
  - destruct (to_int_cases f) as [(n & Hn & ->)|[Hn ->]]; rewrite Hn.
    + left. eauto.
    + right. split; [|done]. intros H. by destruct (H eq_refl).
  - left. split; [|done]. intros. done.
Qed.

Lemma add_languages_spec date row i langs cd :
  match add_languages int date row i langs cd with
  | Ok cd' =>
      Forall (λ j, convertible int (field row j)) (seq (i + 6) (length langs))
      ∧ (∀ D K, value cd' D K = value cd D K
           + (if decide (date = D) then column_sum int K row i langs else 0))
      ∧ dom cd ⊆ dom cd' ∧ dom cd' ⊆ {[date]} ∪ dom cd
  | Raise e =>
      e = ValueError
      ∧ ¬ Forall (λ j, convertible int (field row j)) (seq (i + 6) (length langs))
  end.
Proof.
  revert i cd. induction langs as [|lang rest IH]; intros i cd; simpl.
  { split; [constructor|]. split; [|set_solver].
    intros D K. case_decide; lia. }
  case_bool_decide as Hlen.
  - destruct (lookup_lt_is_Some_2 row (i + 6)%nat Hlen) as [f Hf].
    destruct (getitem_lookup _ _ _ Hf) as [-> Hfield]. simpl.
    destruct (Py.truthy f) eqn:Ht.
    + destruct (to_int_cases f) as [(n & Hn & ->)|[Hn ->]]; simpl.
      * specialize (IH (S i) (add_count date lang n cd)).
        destruct (add_languages _ _ _ _ _ _) as [cd'|e].
        -- destruct IH as (Hconv & Hval & Hd1 & Hd2).
           split; [|split; [|split]].
           ++ constructor; [|done]. rewrite Hfield. intros _. by rewrite Hn.
           ++ intros D K. rewrite Hval, value_add_count, Hfield.
              unfold field_value. rewrite Ht, Hn. simpl.
              repeat case_decide; naive_solver lia.
           ++ rewrite dom_add_count in Hd1. set_solver.
           ++ rewrite dom_add_count in Hd2. set_solver.
        -- destruct IH as [-> Hnot]. split; [done|].
           intros [_ Hall]%Forall_cons. by apply Hnot.
      * split; [done|]. intros [Hc _]%Forall_cons.
        rewrite Hfield in Hc. destruct (Hc Ht) as [? ?]. congruence.
    + specialize (IH (S i) cd).
      destruct (add_languages _ _ _ _ _ _) as [cd'|e].
      * destruct IH as (Hconv & Hval & Hd1 & Hd2).
        split; [|split; [|done]].
        -- constructor; [|done]. rewrite Hfield. intros ?. congruence.
        -- intros D K. rewrite Hval, Hfield. unfold field_value. rewrite Ht.
           repeat case_decide; lia.
      * destruct IH as [-> Hnot]. split; [done|].
        intros [_ Hall]%Forall_cons. by apply Hnot.
  - assert (field row (i + 6) = "") as Hfield by (apply field_beyond; lia).
    specialize (IH (S i) cd).
    destruct (add_languages _ _ _ _ _ _) as [cd'|e].
    + destruct IH as (Hconv & Hval & Hd1 & Hd2).
      split; [|split; [|done]].
      * constructor; [|done]. rewrite Hfield. intros ?. done.
      * intros D K. rewrite Hval, Hfield. unfold field_value. simpl.
        repeat case_decide; lia.
    + destruct IH as [-> Hnot]. split; [done|].
      intros [_ Hall]%Forall_cons. by apply Hnot.
Qed.

Lemma process_row_short langs cd (row : csv_row) :
  (length row < 6)%nat → process_row int langs cd row = Ok cd.
Proof. intros H. unfold process_row. by rewrite bool_decide_eq_true_2. Qed.

Lemma process_row_spec langs cd (row : csv_row) :
  (6 ≤ length row)%nat →
  match process_row int langs cd row with
  | Ok cd' =>
      row_convertible int langs row
      ∧ (∀ D K, value cd' D K = value cd D K
           + (if decide (record_date (langs, row) = D)
              then record_count int K (langs, row) else 0))
      ∧ dom cd' = {[record_date (langs, row)]} ∪ dom cd
  | Raise e => e = ValueError ∧ ¬ row_convertible int langs row
  end.
Proof.
  intros Hlen. unfold process_row, row_convertible.
  rewrite bool_decide_eq_false_2 by lia.
  destruct (lookup_lt_is_Some_2 row 0%nat ltac:(lia)) as [f0 Hf0].
  destruct (lookup_lt_is_Some_2 row 1%nat ltac:(lia)) as [f1 Hf1].
  destruct (lookup_lt_is_Some_2 row 2%nat ltac:(lia)) as [f2 Hf2].
  destruct (lookup_lt_is_Some_2 row 3%nat ltac:(lia)) as [f3 Hf3].
  destruct (lookup_lt_is_Some_2 row 4%nat ltac:(lia)) as [f4 Hf4].
  destruct (lookup_lt_is_Some_2 row 5%nat ltac:(lia)) as [f5 Hf5].
  destruct (getitem_lookup _ _ _ Hf0) as [-> _].
  destruct (getitem_lookup _ _ _ Hf1) as [-> _].
  destruct (getitem_lookup _ _ _ Hf2) as [-> Hd].
  destruct (getitem_lookup _ _ _ Hf3) as [-> _].
  destruct (getitem_lookup _ _ _ Hf4) as [-> H4].
  destruct (getitem_lookup _ _ _ Hf5) as [-> H5].
  simpl.
  destruct (int_or_zero_cases f4) as [[Hc4 ->]|[Hc4 ->]]; simpl;
    [|split; [done|]; intros [Hc _]%Forall_cons; by rewrite H4 in Hc].
  destruct (int_or_zero_cases f5) as [[Hc5 ->]|[Hc5 ->]]; simpl;
    [|split; [done|]; intros [_ [Hc _]%Forall_cons]%Forall_cons;
      by rewrite H5 in Hc].
  pose proof (add_languages_spec f2 row 0 langs
                (add_count f2 "total_loc" (field_value int f4) cd)) as Hl.
  destruct (add_languages _ _ _ _ _ _) as [cd'|e].
  - destruct Hl as (Hconv & Hval & Hd1 & Hd2).
    split; [|split].
    + constructor; [by rewrite H4|]. constructor; [by rewrite H5|]. done.
    + intros D K. rewrite Hval, value_add_count.
      unfold record_date, record_count, record_total, record_language.
      simpl. rewrite Hd, H4.
      repeat case_decide; naive_solver lia.
    + rewrite dom_add_count in Hd1, Hd2.
      unfold record_date. simpl. rewrite Hd. set_solver.
  - destruct Hl as [-> Hnot]. split; [done|].
    intros [_ [_ Hall]%Forall_cons]%Forall_cons. by apply Hnot.
Qed.

Lemma sum_with_app {A} (f : A → Z) l1 l2 :
  sum_with f (l1 ++ l2) = sum_with f l1 + sum_with f l2.
Proof. induction l1 as [|a l1 IH]; simpl; lia. Qed.

Lemma sum_with_ext {A} (f g : A → Z) l :
  (∀ a, a ∈ l → f a = g a) → sum_with f l = sum_with g l.
Proof.
  induction l as [|a l IH]; intros H; simpl; [done|].
  rewrite (H a), IH; [done| |]; set_solver.
Qed.

Lemma sum_with_Permutation {A} (f : A → Z) l1 l2 :
  l1 ≡ₚ l2 → sum_with f l1 = sum_with f l2.
Proof. induction 1; simpl; lia. Qed.

Lemma on_date_cons D r rs :
  on_date D (r :: rs)
  = if decide (record_date r = D) then r :: on_date D rs
    else on_date D rs.
Proof. unfold on_date. by rewrite filter_cons. Qed.

Lemma on_date_app D rs1 rs2 :
  on_date D (rs1 ++ rs2) = on_date D rs1 ++ on_date D rs2.
Proof. unfold on_date. by rewrite filter_app. Qed.

Lemma record_dates_app rs1 rs2 :
  record_dates (rs1 ++ rs2) = record_dates rs1 ∪ record_dates rs2.
Proof. unfold record_dates. by rewrite fmap_app, list_to_set_app_L. Qed.

Local Abbreviation with_languages langs rows :=
  ((λ row : csv_row, (langs, row))
     <$> filter (λ row : csv_row, 6 ≤ length row)%nat rows).

Lemma process_rows_spec (langs : list string) cd (rows : list csv_row) :
  match process_rows int langs cd rows with
  | Ok cd' =>
      Forall (λ r, row_convertible int r.1 r.2) (with_languages langs rows)
      ∧ (∀ D K, value cd' D K = value cd D K
           + sum_with (record_count int K)
               (on_date D (with_languages langs rows)))
      ∧ dom cd' = dom cd ∪ record_dates (with_languages langs rows)
  | Raise e =>
      e = ValueError
      ∧ ¬ Forall (λ r, row_convertible int r.1 r.2) (with_languages langs rows)
  end.
Proof.
  revert cd. induction rows as [|row rows IH]; intros cd; simpl.
  { split; [constructor|]. split; [intros; lia|].
    unfold record_dates. simpl. set_solver. }
  destruct (decide (length row < 6)%nat) as [Hshort|Hlong].
  - rewrite process_row_short by done. simpl.
    rewrite filter_cons_False by lia. apply IH.
  - rewrite filter_cons_True by lia. rewrite fmap_cons.
    pose proof (process_row_spec langs cd row ltac:(lia)) as Hrow.
    destruct (process_row _ _ _ _) as [cd1|e]; simpl.
    + destruct Hrow as (Hc & Hval & Hdom).
      specialize (IH cd1).
      destruct (process_rows _ _ _ _) as [cd'|e].
      * destruct IH as (Hcs & Hvals & Hdoms).
        split; [by constructor|]. split.
        -- intros D K. rewrite Hvals, Hval, on_date_cons.
           case_decide; simpl; lia.
        -- rewrite Hdoms, Hdom. unfold record_dates. simpl. set_solver.
      * destruct IH as [-> Hnot]. split; [done|].
        intros [_ Hall]%Forall_cons. by apply Hnot.
    + destruct Hrow as [-> Hnot]. split; [done|].
      intros [Hc _]%Forall_cons. by apply Hnot.
Qed.

Lemma process_file_spec st (f : csv_file) :
  match process_file int st f with
  | Ok st' =>
      convertible_file int f
      ∧ (∀ D K, value st'.1 D K = value st.1 D K
           + sum_with (record_count int K) (on_date D (records_of f)))
      ∧ dom st'.1 = dom st.1 ∪ record_dates (records_of f)
      ∧ st'.2 = st.2 ∪ list_to_set (drop 6 (default [] (head f)))
  | Raise e => ¬ convertible_file int f
  end.
Proof.
  destruct f as [|header rows]; simpl.
  { by intros [? _]. }
  pose proof (process_rows_spec (drop 6 header) st.1 rows) as Hrows.
  destruct (process_rows _ _ _ _) as [cd'|e]; simpl.
  - destruct Hrows as (Hc & Hval & Hdom). by repeat split.
  - destruct Hrows as [_ Hnot]. by intros [_ ?].
Qed.

Local Arguments all_records : simpl never.

Lemma all_records_cons (f : csv_file) fs :
  all_records (f :: fs) = records_of f ++ all_records fs.
Proof. done. Qed.

Lemma all_records_Permutation (fs fs' : list csv_file) :
  fs ≡ₚ fs' → all_records fs ≡ₚ all_records fs'.
Proof. intros H. unfold all_records. by rewrite H. Qed.

Lemma header_languages_Permutation (fs fs' : list csv_file) :
  fs ≡ₚ fs' → header_languages fs = header_languages fs'.
Proof.
  intros H. unfold header_languages. apply set_eq. intros x.
  rewrite !elem_of_union_list. by setoid_rewrite H.
Qed.

Lemma process_files_spec st (fs : list csv_file) :
  match process_files int st fs with
  | Ok st' =>
      Forall (convertible_file int) fs
      ∧ (∀ D K, value st'.1 D K = value st.1 D K
           + sum_with (record_count int K) (on_date D (all_records fs)))
      ∧ dom st'.1 = dom st.1 ∪ record_dates (all_records fs)
      ∧ st'.2 = st.2 ∪ header_languages fs
  | Raise e => ¬ Forall (convertible_file int) fs
  end.
Proof.
  revert st. induction fs as [|f fs IH]; intros st; simpl.
  { split; [constructor|]. split; [intros; unfold all_records; simpl; lia|].
    unfold record_dates, header_languages, all_records. simpl. set_solver. }
  pose proof (process_file_spec st f) as Hf.
  destruct (process_file _ _ _) as [st1|e]; simpl.
  - destruct Hf as (Hc & Hval & Hdom & Hlang).
    specialize (IH st1).
    destruct (process_files _ _ _) as [st'|e].
    + destruct IH as (Hcs & Hvals & Hdoms & Hlangs).
      split; [by constructor|]. split; [|split].
      * intros D K.
        rewrite all_records_cons, Hvals, Hval, on_date_app, sum_with_app.
        lia.
      * rewrite all_records_cons, record_dates_app, Hdoms, Hdom.
        set_solver.
      * rewrite Hlangs, Hlang. unfold header_languages. simpl. set_solver.
    + intros [_ Hall]%Forall_cons. by apply IH.
  - intros [? _]%Forall_cons. by apply Hf.
Qed.

(** *** [sorted] *)

Lemma sorted_Permutation l : Py.sorted l ≡ₚ l.
Proof. apply merge_sort_Permutation. Qed.

Lemma sorted_Sorted l : Sorted String.le (Py.sorted l).
Proof. apply (Sorted_merge_sort String.le). Qed.

Lemma sorted_unique l1 l2 : l1 ≡ₚ l2 → Py.sorted l1 = Py.sorted l2.
Proof.
  intros H. apply (Sorted_unique String.le); [apply sorted_Sorted..|].
  by rewrite !sorted_Permutation.
Qed.

Lemma elem_of_sorted x l : x ∈ Py.sorted l ↔ x ∈ l.
Proof. by rewrite sorted_Permutation. Qed.

(** A sorted list without duplicates is strictly increasing. *)
Lemma sorted_strict l :
  NoDup l → StronglySorted (strict String.le) (Py.sorted l).
Proof.
  intros Hnd.
  assert (NoDup (Py.sorted l)) as Hnd' by by rewrite sorted_Permutation.
  pose proof (Sorted_StronglySorted _ _ (sorted_Sorted l)) as Hs.
  induction Hs as [|x k Hs IH Hx]; [constructor|].
  apply NoDup_cons in Hnd' as [Hxk Hnd'].
  constructor; [by apply IH|].
  apply Forall_forall. intros y Hy.
  apply strict_spec_alt. split.
  - by apply (proj1 (Forall_forall _ _) Hx).
  - intros ->. done.
Qed.

(** *** The rows written *)

Lemma sorted_dates_ext (cd cd' : combined) :
  (∀ D, D ≠ INITIAL_DATE → D ∈ dom cd ↔ D ∈ dom cd') →
  Py.sorted (filter (λ d, d ≠ INITIAL_DATE) (elements (dom cd)))
  = Py.sorted (filter (λ d, d ≠ INITIAL_DATE) (elements (dom cd'))).
Proof.
  intros H. apply sorted_unique, NoDup_Permutation.
  - apply NoDup_filter, NoDup_elements.
  - apply NoDup_filter, NoDup_elements.
  - intros D. rewrite !list_elem_of_filter, !elem_of_elements. naive_solver.
Qed.

Lemma write_output_ext (cd cd' : combined) langs :
  (∀ D, D ≠ INITIAL_DATE → D ∈ dom cd ↔ D ∈ dom cd') →
  (∀ D K, D ≠ INITIAL_DATE → value cd D K = value cd' D K) →
  write_output cd langs = write_output cd' langs.
Proof.
  intros Hdom Hval. unfold write_output.
  rewrite (sorted_dates_ext cd cd' Hdom).
  do 2 f_equal. apply list_fmap_ext. intros i D HD.
  assert (D ≠ INITIAL_DATE) as Hne.
  { apply list_elem_of_lookup_2 in HD.
    apply elem_of_sorted, list_elem_of_filter in HD. tauto. }
  unfold data_row. rewrite Hval by done. f_equal.
  apply list_fmap_ext. intros ? K _. by rewrite Hval.
Qed.

(** *** Runs of [main] *)

Lemma value_empty D K : value (∅ : combined) D K = 0.
Proof. done. Qed.

Lemma main_Written_inv (fs : list csv_file) out :
  main int fs = Written out →
  ∃ cd : combined,
    fs ≠ [] ∧ Forall (convertible_file int) fs
    ∧ out = write_output cd (header_languages fs)
    ∧ (∀ D K, value cd D K
         = sum_with (record_count int K) (on_date D (all_records fs)))
    ∧ dom cd = record_dates (all_records fs).
Proof.
  unfold main. destruct fs as [|f fs]; [done|].
  pose proof (process_files_spec (∅, ∅) (f :: fs)) as H.
  destruct (process_files _ _ _) as [[cd langs]|e]; [|done].
  destruct H as (Hc & Hval & Hdom & Hlangs). simpl in *.
  intros [= <-]. exists cd. split; [done|]. split; [done|].
  rewrite Hlangs, (left_id_L ∅ (∪)). split; [done|]. split.
  - intros D K. rewrite Hval. rewrite value_empty. lia.
  - rewrite Hdom. rewrite dom_empty_L. by rewrite (left_id_L ∅ (∪)).
Qed.

Lemma main_Written_intro (fs : list csv_file) :
  fs ≠ [] → Forall (convertible_file int) fs →
  ∃ out, main int fs = Written out.
Proof.
  intros Hne Hc. unfold main. destruct fs as [|f fs]; [done|].
  pose proof (process_files_spec (∅, ∅) (f :: fs)) as H.
  destruct (process_files _ _ _) as [[cd langs]|e]; [eauto|done].
Qed.

Lemma main_not_Written (fs : list csv_file) :
  (∀ out, main int fs ≠ Written out) →
  fs = [] ∨ ¬ Forall (convertible_file int) fs.
Proof.
  intros H. destruct (decide (fs = [])) as [|Hne]; [by left|right].
  intros Hc. destruct (main_Written_intro fs Hne Hc) as [out Hout].
  by apply (H out).
Qed.

Lemma main_Permutation_Written (fs fs' : list csv_file) out :
  fs ≡ₚ fs' → main int fs = Written out → main int fs' = Written out.
Proof.
  intros Hp Hout.
  destruct (main_Written_inv fs out Hout) as (cd & Hne & Hc & -> & Hval & Hdom).
  assert (fs' ≠ []) as Hne'.
  { intros ->. by apply Permutation_nil_r in Hp. }
  rewrite Hp in Hc.
  destruct (main_Written_intro fs' Hne' Hc) as [out' Hout'].
  rewrite Hout'. f_equal.
  destruct (main_Written_inv fs' out' Hout')
    as (cd' & _ & _ & -> & Hval' & Hdom').
  rewrite <- (header_languages_Permutation fs fs' Hp).
  apply write_output_ext.
  - intros D _. rewrite Hdom, Hdom'. unfold record_dates.
    rewrite !elem_of_list_to_set.
    by rewrite (all_records_Permutation fs fs' Hp).
  - intros D K _. rewrite Hval, Hval'. apply sum_with_Permutation.
    unfold on_date. by rewrite (all_records_Permutation fs fs' Hp).
Qed.

(** C8. The output file does not depend on the order in which the input
    files are enumerated: two runs over the same files, listed in any two
    orders, write the same rows, or both write nothing. (A second run over
    the same list is the same function applied to the same argument.) *)
Theorem aggregation_order_independent (fs fs' : list csv_file) :
  fs ≡ₚ fs' → written (main int fs) = written (main int fs').
Proof.
  intros Hp.
  destruct (main int fs) as [| |out] eqn:E;
    destruct (main int fs') as [| |out'] eqn:E'; simpl; try done.
  - apply (main_Permutation_Written fs' fs) in E'; [congruence|done].
  - apply (main_Permutation_Written fs' fs) in E'; [congruence|done].
  - apply (main_Permutation_Written fs fs') in E; [congruence|done].
  - apply (main_Permutation_Written fs fs') in E; [congruence|done].
  - apply (main_Permutation_Written fs fs') in E; [congruence|done].
Qed.

(** *** Rows that are too short *)

Lemma process_rows_app langs cd (rows1 rows2 : list csv_row) :
  process_rows int langs cd (rows1 ++ rows2)
  = process_rows int langs cd rows1 ≫= λ cd', process_rows int langs cd' rows2.
Proof.
  revert cd. induction rows1 as [|row rows1 IH]; intros cd; simpl; [done|].
  destruct (process_row _ _ _ _); simpl; [apply IH|done].
Qed.

Lemma process_files_app st (fs1 fs2 : list csv_file) :
  process_files int st (fs1 ++ fs2)
  = process_files int st fs1 ≫= λ st', process_files int st' fs2.
Proof.
  revert st. induction fs1 as [|f fs1 IH]; intros st; simpl; [done|].
  destruct (process_file _ _ _); simpl; [apply IH|done].
Qed.

Lemma main_nonempty (fs : list csv_file) :
  fs ≠ [] →
  main int fs
  = match process_files int (∅, ∅) fs with
    | Raise e => Crashed e
    | Ok (cd, all_languages) => Written (write_output cd all_languages)
    end.
Proof. by destruct fs. Qed.

(** C7. A data row with fewer than 6 fields is skipped: the loop body
    returns the accumulators as it found them, and the run over any set
    of files is the run over the same files without that row, whatever
    stands before and after it: the same rows written, or the same
    exception. *)
Theorem short_row_is_skipped langs cd (row : csv_row) :
  (length row < 6)%nat →
  process_row int langs cd row = Ok cd
  ∧ ∀ (files_before files_after : list csv_file) (header : csv_row)
      (rows_before rows_after : list csv_row),
      main int (files_before
                  ++ (header :: rows_before ++ row :: rows_after)
                  :: files_after)
      = main int (files_before
                    ++ (header :: rows_before ++ rows_after) :: files_after).
Proof.
  intros Hshort. split; [by apply process_row_short|].
  intros fb fa header rb ra.
  rewrite !main_nonempty by (by destruct fb).
  rewrite !process_files_app.
  destruct (process_files int _ fb) as [st|e]; simpl; [|done].
  rewrite !process_rows_app.
  destruct (process_rows int _ _ rb) as [cd1|e]; simpl; [|done].
  by rewrite process_row_short.
Qed.

(** *** The body of the row loop *)

Lemma process_row_cases langs cd (row : csv_row) :
  (6 ≤ length row)%nat →
  (row_convertible int langs row
   ∧ ∃ cd', process_row int langs cd row = Ok cd'
       ∧ ∀ D K, value cd' D K = value cd D K
           + (if decide (field row 2 = D)
              then record_count int K (langs, row) else 0))
  ∨ (¬ row_convertible int langs row
     ∧ process_row int langs cd row = Raise ValueError).
Proof.
  intros Hlen. pose proof (process_row_spec langs cd row Hlen) as H.
  destruct (process_row _ _ _ _) as [cd'|e].
  - left. destruct H as (Hc & Hval & _). eauto.
  - right. by destruct H as [-> Hc].
Qed.

(** C10, as the code has it. On a row of at least 6 fields the loop body
    never reads beyond the row ([IndexError] is not raised), whatever the
    length of the header: an empty [lines_of_code] counts 0, and a language
    column whose field lies beyond the row or is empty is passed over with
    the accumulators untouched. The body completes when every non-empty
    field it converts ([lines_of_code], [delta], the fields under the
    language columns) is accepted by [int()], and raises [ValueError]
    otherwise. *)
Theorem process_row_no_index_error langs cd (row : csv_row) :
  (6 ≤ length row)%nat →
  process_row int langs cd row ≠ Raise IndexError
  ∧ (row_convertible int langs row → succeeds (process_row int langs cd row))
  ∧ (¬ row_convertible int langs row →
     process_row int langs cd row = Raise ValueError)
  ∧ int_or_zero int "" = Ok 0
  ∧ ∀ date i lang rest cd1,
      (length row ≤ i + 6)%nat ∨ row !! (i + 6)%nat = Some "" →
      add_languages int date row i (lang :: rest) cd1
      = add_languages int date row (S i) rest cd1.
Proof.
  intros Hlen.
  destruct (process_row_cases langs cd row Hlen)
    as [(Hc & cd' & Hrow & _)|[Hc Hrow]]; rewrite Hrow.
  - split; [done|]. split; [done|]. split; [done|]. split; [done|].
    intros date i lang rest cd1 [Hi|Hi]; simpl.
    + by rewrite bool_decide_eq_false_2 by lia.
    + case_bool_decide; [|done].
      unfold Py.getitem. by rewrite Hi.
  - split; [done|]. split; [done|]. split; [done|]. split; [done|].
    intros date i lang rest cd1 [Hi|Hi]; simpl.
    + by rewrite bool_decide_eq_false_2 by lia.
    + case_bool_decide; [|done].
      unfold Py.getitem. by rewrite Hi.
Qed.

(** C6, as the code has it. With no input file [main] reports that no
    file was found and returns: no output is written, not even the anchor
    row. The anchor-only output without language columns is written when
    there are input files and each of them is a header of at most 6
    columns without any data row. *)
Theorem no_input_no_output :
  main int [] = NoFilesFound
  ∧ ∀ fs : list csv_file,
      fs ≠ [] →
      Forall (λ f, ∃ header : csv_row,
                     f = [header] ∧ (length header ≤ 6)%nat) fs →
      main int fs
      = Written [[Str "date"; Str "total_loc"]; [Str INITIAL_DATE; Int 0]].
Proof.
  split; [done|]. intros fs Hne Hfs. rewrite main_nonempty by done.
  assert (process_files int (∅, ∅) fs = Ok (∅, ∅)) as ->; [|done].
  clear Hne. induction Hfs as [|f fs (header & -> & Hlen) _ IH]; [done|].
  simpl. rewrite drop_ge by done. simpl.
  rewrite (left_id_L ∅ (∪)). apply IH.
Qed.

(** *** The anchor row and the order of the dates *)

Lemma row_date_data_row cd langs D : row_date (data_row cd langs D) = D.
Proof. done. Qed.

Lemma row_dates_data_rows cd langs (dates : list string) :
  row_date <$> (data_row cd langs <$> dates) = dates.
Proof.
  rewrite <- list_fmap_compose. rewrite <- (list_fmap_id dates) at 2.
  by apply list_fmap_ext.
Qed.

Lemma records_of_without_anchor (f : csv_file) :
  records_of (without_anchor_records f)
  = filter (λ r, record_date r ≠ INITIAL_DATE) (records_of f).
Proof.
  destruct f as [|header rows]; [done|]. simpl.
  induction rows as [|row rows IH]; [done|].
  destruct (decide (6 ≤ length row)%nat) as [Hlen|Hlen].
  - rewrite (filter_cons_True (λ row : csv_row, 6 ≤ length row)%nat) by done.
    rewrite fmap_cons.
    destruct (decide (field row 2 = INITIAL_DATE)) as [Hd|Hd].
    + rewrite (filter_cons_False (λ row, ¬ is_anchor_record row))
        by (unfold is_anchor_record; tauto).
      rewrite (filter_cons_False (λ r, record_date r ≠ INITIAL_DATE))
        by (unfold record_date; simpl; tauto).
      done.
    + rewrite (filter_cons_True (λ row, ¬ is_anchor_record row))
        by (unfold is_anchor_record; tauto).
      rewrite (filter_cons_True (λ r, record_date r ≠ INITIAL_DATE))
        by (unfold record_date; simpl; tauto).
      rewrite (filter_cons_True (λ row : csv_row, 6 ≤ length row)%nat) by done.
      rewrite fmap_cons. by f_equal.
  - rewrite (filter_cons_False (λ row : csv_row, 6 ≤ length row)%nat) by done.
    rewrite (filter_cons_True (λ row, ¬ is_anchor_record row))
      by (unfold is_anchor_record; tauto).
    rewrite (filter_cons_False (λ row : csv_row, 6 ≤ length row)%nat) by done.
    done.
Qed.

Lemma all_records_without_anchor (fs : list csv_file) :
  all_records (without_anchor_records <$> fs)
  = filter (λ r, record_date r ≠ INITIAL_DATE) (all_records fs).
Proof.
  induction fs as [|f fs IH]; [done|].
  rewrite fmap_cons, !all_records_cons, filter_app, IH.
  by rewrite records_of_without_anchor.
Qed.

Lemma on_date_without_anchor D rs :
  D ≠ INITIAL_DATE →
  on_date D (filter (λ r, record_date r ≠ INITIAL_DATE) rs) = on_date D rs.
Proof.
  intros HD. unfold on_date. induction rs as [|r rs IH]; [done|].
  rewrite !filter_cons. repeat case_decide; simplify_eq; try done.
  - rewrite filter_cons_True by done. by f_equal.
  - by rewrite filter_cons_False by done.
Qed.

Lemma header_languages_without_anchor (fs : list csv_file) :
  header_languages (without_anchor_records <$> fs) = header_languages fs.
Proof.
  unfold header_languages. f_equal. rewrite <- list_fmap_compose.
  apply list_fmap_ext. intros _ f _. by destruct f.
Qed.

Lemma convertible_without_anchor (f : csv_file) :
  convertible_file int f → convertible_file int (without_anchor_records f).
Proof.
  intros [Hne Hc]. split; [by destruct f|].
  rewrite records_of_without_anchor. apply Forall_forall.
  intros r [_ Hr]%list_elem_of_filter.
  by apply (proj1 (Forall_forall _ _) Hc).
Qed.

Lemma data_dates cd (langs : gset string) D :
  D ∈ row_date <$> drop 2 (write_output cd langs)
  ↔ D ∈ dom cd ∧ D ≠ INITIAL_DATE.
Proof.
  unfold write_output. simpl. rewrite drop_0.
  rewrite row_dates_data_rows, elem_of_sorted, list_elem_of_filter.
  rewrite elem_of_elements. tauto.
Qed.

(** C2, as the code has it. Whenever [main] writes its output (which it
    does not without input files, nor when a field is rejected by [int()]),
    the first row after the header is the anchor row: the anchor date
    followed by a 0 in every column. No later row carries the anchor date,
    and the records of the input dated at the anchor contribute nothing:
    the run over the input without them writes the same rows. *)
Theorem anchor_row_first (fs : list csv_file) out :
  main int fs = Written out →
  ∃ header rest,
    out = header :: (Str INITIAL_DATE :: replicate (length header - 1) (Int 0))
                 :: rest
    ∧ Forall (λ row, row_date row ≠ INITIAL_DATE) rest
    ∧ main int (without_anchor_records <$> fs) = Written out.
Proof.
  intros Hout.
  destruct (main_Written_inv fs out Hout) as (cd & Hne & Hc & -> & Hval & Hdom).
  exists (Str <$> "date" :: "total_loc"
                    :: Py.sorted (elements (header_languages fs))).
  eexists. split; [|split].
  - unfold write_output. rewrite (length_fmap Str). simpl. reflexivity.
  - apply Forall_forall. intros row Hrow.
    apply (list_elem_of_fmap_2 row_date) in Hrow.
    pose proof (proj1 (data_dates cd (header_languages fs) (row_date row))) as H.
    unfold write_output in H. simpl in H. rewrite drop_0 in H.
    by destruct (H Hrow).
  - assert (without_anchor_records <$> fs ≠ []) as Hne' by by destruct fs.
    assert (Forall (convertible_file int) (without_anchor_records <$> fs)) as Hc'.
    { apply Forall_fmap. eapply Forall_impl; [exact Hc|].
      intros f. apply convertible_without_anchor. }
    destruct (main_Written_intro _ Hne' Hc') as [out' Hout'].
    rewrite Hout'. f_equal.
    destruct (main_Written_inv _ out' Hout')
      as (cd' & _ & _ & -> & Hval' & Hdom').
    rewrite header_languages_without_anchor.
    apply write_output_ext.
    + intros D HD. rewrite Hdom, Hdom', all_records_without_anchor.
      unfold record_dates. rewrite !elem_of_list_to_set, !list_elem_of_fmap.
      setoid_rewrite list_elem_of_filter. naive_solver.
    + intros D K HD.
      rewrite Hval, Hval', all_records_without_anchor.
      by rewrite on_date_without_anchor.
Qed.

(** *** Dates in the format of the series are ordered as the instants *)

Lemma date_lt_compare s1 s2 : date_lt s1 s2 ↔ String.compare s1 s2 = Lt.
Proof.
  unfold date_lt, strict, String.le, String.leb.
  rewrite (String.compare_antisym s1 s2).
  destruct (String.compare s2 s1); simpl; naive_solver.
Qed.

Lemma compare_app (u v x y : string) :
  String.length u = String.length v →
  String.compare (u +:+ x) (v +:+ y)
  = match String.compare u v with
    | Eq => String.compare x y
    | c => c
    end.
Proof.
  revert v. induction u as [|a u IH]; intros [|b v] Hlen; simplify_eq/=; [done|].
  destruct (Ascii.compare a b); [by apply IH|done..].
Qed.

Lemma compare_pad2 m n :
  (m < 100)%nat → (n < 100)%nat → String.compare (Py.pad2 m) (Py.pad2 n) = Nat.compare m n.
Proof.
  intros Hm Hn.
  assert (forallb (λ m, forallb (λ n,
            bool_decide (String.compare (Py.pad2 m) (Py.pad2 n) = Nat.compare m n))
            (seq 0 100)) (seq 0 100) = true) as H by (vm_compute; reflexivity).
  rewrite forallb_forall in H.
  specialize (H m (proj2 (in_seq 100 0 m) ltac:(lia))).
  rewrite forallb_forall in H.
  specialize (H n (proj2 (in_seq 100 0 n) ltac:(lia))).
  by apply bool_decide_eq_true in H.
Qed.

Lemma pad2_length n : String.length (Py.pad2 n) = 2%nat.
Proof. done. Qed.

Lemma compare_pad4 m n :
  (m < 100 * 100)%nat → (n < 100 * 100)%nat → String.compare (Py.pad4 m) (Py.pad4 n) = Nat.compare m n.
Proof.
  intros Hm Hn. unfold Py.pad4.
  rewrite compare_app by done.
  rewrite !compare_pad2
    by (try apply Nat.mod_upper_bound; try apply Nat.Div0.div_lt_upper_bound; lia).
  pose proof (Nat.div_mod_eq m 100). pose proof (Nat.div_mod_eq n 100).
  pose proof (Nat.mod_upper_bound m 100 ltac:(lia)).
  pose proof (Nat.mod_upper_bound n 100 ltac:(lia)).
  destruct (Nat.compare_spec (m / 100)%nat (n / 100)%nat);
    destruct (Nat.compare_spec (m mod 100)%nat (n mod 100)%nat);
    destruct (Nat.compare_spec m n); try done; lia.
Qed.

Lemma compare_step (m n : nat) (c : comparison) (P : Prop) :
  (c = Lt ↔ P) →
  match Nat.compare m n with Eq => c | c' => c' end = Lt ↔ (m < n)%nat ∨ (m = n ∧ P).
Proof.
  intros H. destruct (Nat.compare_spec m n); [naive_solver lia|..].
  - split; [by left|done].
  - split; [done|lia].
Qed.

Lemma lexical_is_chronological t1 t2 :
  Py.in_range t1 → Py.in_range t2 →
  date_lt (Py.strftime t1) (Py.strftime t2) ↔ Py.earlier t1 t2.
Proof.
  intros (Hy1 & Hmo1 & Hd1 & Hh1 & Hmi1 & Hs1) (Hy2 & Hmo2 & Hd2 & Hh2 & Hmi2 & Hs2).
  rewrite date_lt_compare. unfold Py.strftime, Py.earlier.
  rewrite compare_app by done. rewrite compare_pad4 by done.
  rewrite (compare_app "-") by done. simpl (String.compare "-" "-").
  rewrite compare_app by done. rewrite compare_pad2 by done.
  rewrite (compare_app "-") by done. simpl (String.compare "-" "-").
  rewrite compare_app by done. rewrite compare_pad2 by done.
  rewrite (compare_app " ") by done. simpl (String.compare " " " ").
  rewrite compare_app by done. rewrite compare_pad2 by done.
  rewrite (compare_app ":") by done. simpl (String.compare ":" ":").
  rewrite compare_app by done. rewrite compare_pad2 by done.
  rewrite (compare_app ":") by done. simpl (String.compare ":" ":").
  rewrite compare_pad2 by done.
  cbn [Py.lexico_lt]. do 5 apply compare_step.
  rewrite Nat.compare_lt_iff. tauto.
Qed.

(** C4, as the code has it. The anchor row is written first whatever the
    input holds, and the rows after it are in strictly increasing lexical
    order of their dates. With the anchor row included the dates are
    strictly increasing exactly when every record of the input not dated at
    the anchor is dated after it: a record dated before 2024-11-01 is
    written below the anchor row. On dates in the format of the series,
    YYYY-MM-DD HH:MM:SS, the lexical order is the chronological order. *)
Theorem dates_increasing_after_anchor (fs : list csv_file) out :
  main int fs = Written out →
  (∃ header anchor rest,
     out = header :: anchor :: rest
     ∧ row_date anchor = INITIAL_DATE
     ∧ StronglySorted date_lt (row_date <$> rest)
     ∧ (StronglySorted date_lt (row_date <$> anchor :: rest)
        ↔ ∀ r, r ∈ all_records fs → record_date r ≠ INITIAL_DATE →
               date_lt INITIAL_DATE (record_date r)))
  ∧ ∀ t1 t2, Py.in_range t1 → Py.in_range t2 →
             date_lt (Py.strftime t1) (Py.strftime t2) ↔ Py.earlier t1 t2.
Proof.
  intros Hout. split; [|apply lexical_is_chronological].
  destruct (main_Written_inv fs out Hout) as (cd & Hne & Hc & -> & Hval & Hdom).
  unfold write_output. eexists _, _, _. split; [reflexivity|].
  split; [done|]. rewrite fmap_cons, row_dates_data_rows.
  assert (StronglySorted date_lt
            (Py.sorted (filter (λ d, d ≠ INITIAL_DATE) (elements (dom cd)))))
    as Hsorted.
  { apply sorted_strict, NoDup_filter, NoDup_elements. }
  split; [done|].
  rewrite StronglySorted_cons, Forall_forall. simpl.
  split.
  - intros [Hall _] r Hr Hd. apply Hall.
    rewrite elem_of_sorted, list_elem_of_filter, elem_of_elements, Hdom.
    split; [done|]. unfold record_dates.
    rewrite elem_of_list_to_set. by apply list_elem_of_fmap_2.
  - intros Hall. split; [|done]. intros D.
    rewrite elem_of_sorted, list_elem_of_filter, elem_of_elements, Hdom.
    unfold record_dates. rewrite elem_of_list_to_set, list_elem_of_fmap.
    intros (HD & r & -> & Hr). by apply Hall.
Qed.

(** *** The columns and the sums *)

Lemma column_sum_absent lang (row : csv_row) i (languages : list string) :
  lang ∉ languages → column_sum int lang row i languages = 0.
Proof.
  revert i. induction languages as [|name rest IH]; intros i H; simpl; [done|].
  rewrite decide_False by set_solver. rewrite IH by set_solver. done.
Qed.

Lemma records_of_languages (f : csv_file) r :
  r ∈ records_of f → r.1 = drop 6 (default [] (head f)).
Proof.
  destruct f as [|header rows]; simpl; [by intros ?%elem_of_nil|].
  intros (row & -> & _)%list_elem_of_fmap. done.
Qed.

Lemma record_languages_in_header (fs : list csv_file) r L :
  r ∈ all_records fs → L ∈ r.1 → L ∈ header_languages fs.
Proof.
  unfold all_records, header_languages.
  intros (f & Hr & Hf)%list_elem_of_bind HL.
  apply elem_of_union_list. eexists. split.
  - apply list_elem_of_fmap_2. exact Hf.
  - simpl. rewrite elem_of_list_to_set.
    by rewrite <- (records_of_languages f r Hr).
Qed.

Lemma output_languages_spec (fs : list csv_file) :
  Sorted String.le (output_languages fs)
  ∧ NoDup (output_languages fs)
  ∧ ∀ L, L ∈ output_languages fs ↔ L ∈ header_languages fs.
Proof.
  unfold output_languages. split; [apply sorted_Sorted|]. split.
  - rewrite sorted_Permutation. apply NoDup_elements.
  - intros L. by rewrite elem_of_sorted, elem_of_elements.
Qed.

(** The only written row dated [D], for a date in the list. *)
Lemma filter_data_rows cd langs (dates : list string) D :
  NoDup dates → D ∈ dates →
  filter (λ row, row_date row = D) (data_row cd langs <$> dates)
  = [data_row cd langs D].
Proof.
  induction dates as [|d dates IH]; intros Hnd HD; [by apply elem_of_nil in HD|].
  apply NoDup_cons in Hnd as [Hd Hnd]. rewrite fmap_cons, filter_cons.
  rewrite row_date_data_row. case_decide as Heq.
  - subst d. f_equal.
    clear IH HD. induction dates as [|d dates IH]; [done|].
    apply NoDup_cons in Hnd as [_ Hnd].
    rewrite fmap_cons, filter_cons_False; [apply IH; [set_solver|done]|].
    rewrite row_date_data_row. set_solver.
  - apply IH; [done|set_solver].
Qed.

(** What the accumulators hold when no language column is named like the
    entry of the total. *)
Lemma value_total (fs : list csv_file) D :
  "total_loc" ∉ header_languages fs →
  sum_with (record_count int "total_loc") (on_date D (all_records fs))
  = sum_with (record_total int) (on_date D (all_records fs)).
Proof.
  intros Hno. apply sum_with_ext. intros r [_ Hr]%list_elem_of_filter.
  unfold record_count, record_language. rewrite decide_True by done.
  rewrite column_sum_absent; [lia|].
  intros HL. apply Hno. by eapply record_languages_in_header.
Qed.

Lemma value_language (fs : list csv_file) D L :
  L ≠ "total_loc" →
  sum_with (record_count int L) (on_date D (all_records fs))
  = sum_with (record_language int L) (on_date D (all_records fs)).
Proof.
  intros HL. apply sum_with_ext. intros r _.
  unfold record_count. by rewrite decide_False by done.
Qed.

(** C5, as the code has it. For a date [D] other than the anchor date on
    which records exist, and language columns none of which is named
    [total_loc], the output has exactly one row dated [D]; it holds the sum
    of the [lines_of_code] of all records dated [D], whatever series they
    come from, and under every language column the sum of their fields
    under the columns of that name. (Records dated at the anchor are not
    summed: the row at the anchor date is the row of zeros.) *)
Theorem same_date_records_are_summed (fs : list csv_file) out D :
  main int fs = Written out →
  D ≠ INITIAL_DATE →
  on_date D (all_records fs) ≠ [] →
  "total_loc" ∉ header_languages fs →
  head out = Some (Str <$> "date" :: "total_loc" :: output_languages fs)
  ∧ filter (λ row, row_date row = D) (drop 1 out)
    = [ [Str D; Int (sum_with (record_total int) (on_date D (all_records fs)))]
        ++ ((λ L, Int (sum_with (record_language int L)
                         (on_date D (all_records fs))))
              <$> output_languages fs) ].
Proof.
  intros Hout HD Hrep Hno.
  destruct (main_Written_inv fs out Hout) as (cd & Hne & Hc & -> & Hval & Hdom).
  split; [done|]. unfold write_output. cbn [drop].
  rewrite filter_cons_False by (simpl; congruence).
  rewrite filter_data_rows.
  - unfold data_row. rewrite Hval, value_total by done. do 2 f_equal.
    apply list_fmap_ext. intros _ L HL%list_elem_of_lookup_2.
    rewrite Hval, value_language; [done|].
    intros ->. apply Hno. by apply output_languages_spec.
  - rewrite sorted_Permutation. apply NoDup_filter, NoDup_elements.
  - rewrite elem_of_sorted, list_elem_of_filter, elem_of_elements, Hdom.
    split; [done|]. unfold record_dates. rewrite elem_of_list_to_set.
    destruct (on_date D (all_records fs)) as [|r rs] eqn:E; [done|].
    assert (r ∈ on_date D (all_records fs)) as Hr by (rewrite E; set_solver).
    apply list_elem_of_filter in Hr as [<- Hr]. by apply list_elem_of_fmap_2.
Qed.

Lemma sum_with_zero {A} (f : A → Z) l :
  (∀ a, a ∈ l → f a = 0) → sum_with f l = 0.
Proof.
  induction l as [|a l IH]; intros H; simpl; [done|].
  rewrite (H a), IH; [done| |]; set_solver.
Qed.

Lemma sum_with_plus {A} (f g : A → Z) l :
  sum_with (λ a, f a + g a) l = sum_with f l + sum_with g l.
Proof. induction l as [|a l IH]; simpl; lia. Qed.

Lemma sum_with_fmap {A B} (g : A → B) (f : B → Z) l :
  sum_with f (g <$> l) = sum_with (λ a, f (g a)) l.
Proof.
  unfold sum_with. induction l as [|a l IH]; simpl; [done|]. by f_equal.
Qed.

Lemma sum_with_swap {A B} (f : A → B → Z) (l : list A) (k : list B) :
  sum_with (λ a, sum_with (f a) k) l = sum_with (λ b, sum_with (λ a, f a b) l) k.
Proof.
  induction l as [|a l IH]; simpl.
  - symmetry. by apply sum_with_zero.
  - by rewrite IH, sum_with_plus.
Qed.

(** Output columns: the union of the header languages, sorted, once. Every
    written row has one field for the date, one for the total and one for
    every language column. *)
Lemma output_columns (fs : list csv_file) out :
  main int fs = Written out →
  head out = Some (Str <$> "date" :: "total_loc" :: output_languages fs)
  ∧ Sorted String.le (output_languages fs)
  ∧ NoDup (output_languages fs)
  ∧ (∀ L, L ∈ output_languages fs ↔ L ∈ header_languages fs)
  ∧ Forall (λ row, length row = (2 + length (output_languages fs))%nat) out.
Proof.
  intros Hout.
  destruct (main_Written_inv fs out Hout) as (cd & _ & _ & -> & _ & _).
  destruct (output_languages_spec fs) as (Hs & Hnd & Hin).
  split; [done|]. do 3 (split; [done|]).
  unfold write_output. fold (output_languages fs).
  constructor; [by rewrite length_fmap|].
  constructor; [simpl; by rewrite length_replicate|].
  apply Forall_fmap, Forall_true. intros D. unfold data_row. simpl.
  by rewrite length_fmap.
Qed.

(** A language column other than [total_loc] holds 0 in the row of a date
    on which no record has a value under a column of that name. *)
Lemma absent_language_is_zero (fs : list csv_file) out D L i :
  main int fs = Written out →
  output_languages fs !! i = Some L →
  L ≠ "total_loc" →
  (∀ r, r ∈ on_date D (all_records fs) → record_language int L r = 0) →
  ∀ row, row ∈ drop 1 out → row_date row = D →
         row !! (2 + i)%nat = Some (Int 0).
Proof.
  intros Hout Hi HL Hzero row Hrow Hdate.
  destruct (main_Written_inv fs out Hout) as (cd & _ & _ & -> & Hval & _).
  unfold write_output in Hrow. fold (output_languages fs) in Hrow.
  cbn [drop] in Hrow. apply elem_of_cons in Hrow as [->|Hrow].
  - simpl. apply lookup_replicate_2. by eapply lookup_lt_Some.
  - apply list_elem_of_fmap in Hrow as (D' & -> & _).
    rewrite row_date_data_row in Hdate. subst D'.
    unfold data_row. simpl. rewrite list_lookup_fmap, Hi. simpl.
    rewrite Hval, value_language by done.
    by rewrite sum_with_zero.
Qed.

(** Summing, over a duplicate-free list of names that covers the header,
    the fields under the columns of each name sums every field once. *)
Lemma sum_columns (Ls : list string) (row : csv_row) i (languages : list string) :
  NoDup Ls → (∀ name, name ∈ languages → name ∈ Ls) →
  sum_with (λ L, column_sum int L row i languages) Ls
  = sum_with (λ j, field_value int (field row (j + 6)))
      (seq i (length languages)).
Proof.
  intros Hnd. revert i.
  induction languages as [|name rest IH]; intros i Hin; simpl.
  { by apply sum_with_zero. }
  rewrite sum_with_plus, IH by set_solver. f_equal.
  assert (name ∈ Ls) as Hname by set_solver.
  clear IH Hin. induction Hnd as [|L Ls HL Hnd IH]; [by apply elem_of_nil in Hname|].
  simpl. apply elem_of_cons in Hname as [->|Hname].
  - rewrite decide_True by done.
    rewrite sum_with_zero; [lia|].
    intros L' HL'. rewrite decide_False; [done|]. by intros ->.
  - rewrite decide_False by (by intros ->). rewrite IH by done. lia.
Qed.

(** The total of every written data row is the sum of its language values
    when the records satisfy their invariant, provided no language column
    is named [total_loc]. *)
Lemma total_is_sum_of_languages (fs : list csv_file) out :
  main int fs = Written out →
  "total_loc" ∉ header_languages fs →
  Forall (record_invariant int) (all_records fs) →
  Forall (λ row, row_total row = sum_with id (row_language_values row))
         (drop 1 out).
Proof.
  intros Hout Hno Hinv.
  destruct (main_Written_inv fs out Hout) as (cd & _ & _ & -> & Hval & _).
  destruct (output_languages_spec fs) as (_ & Hnd & Hin).
  unfold write_output. fold (output_languages fs). cbn [drop].
  constructor.
  - unfold row_total, row_language_values. simpl.
    rewrite sum_with_zero; [done|].
    intros a (c & -> & Hc)%list_elem_of_fmap.
    by apply elem_of_replicate in Hc as [-> _].
  - apply Forall_fmap, Forall_true. intros D.
    unfold row_total, row_language_values, data_row, compose.
    cbn [app drop lookup list_lookup default cell_int]. rewrite drop_0.
    rewrite !sum_with_fmap. cbn [cell_int id].
    rewrite Hval, value_total by done.
    rewrite (sum_with_ext _ (λ L, sum_with (record_language int L)
                                   (on_date D (all_records fs)))).
    2:{ intros L HL. rewrite Hval, value_language; [done|].
        intros ->. apply Hno. by apply Hin. }
    rewrite <- (sum_with_swap (λ r L, record_language int L r)).
    apply sum_with_ext. intros r [_ Hr]%list_elem_of_filter.
    unfold record_language. rewrite sum_columns; [|done|].
    + by apply (proj1 (Forall_forall _ _) Hinv).
    + intros name Hname. apply Hin. by eapply record_languages_in_header.
Qed.

(** *** When [main] writes, and how it fails *)

(** [main] writes its output only when there is an input file, every file
    has a header row, and every non-empty field converted in a record is
    accepted by [int()]. (Whether it then writes also depends on the files
    being read and the rows being written without error, which the rows
    given to [main] here do not tell.) *)
Theorem main_writes_only_if (fs : list csv_file) out :
  main int fs = Written out →
  fs ≠ [] ∧ Forall (convertible_file int) fs.
Proof.
  intros Hout.
  destruct (main_Written_inv fs out Hout) as (cd & Hne & Hc & _). done.
Qed.

Lemma process_file_Raise st (f : csv_file) e :
  process_file int st f = Raise e →
  (e = StopIteration ∧ f = [])
  ∨ (e = ValueError ∧ ∃ r, r ∈ records_of f ∧ ¬ row_convertible int r.1 r.2).
Proof.
  destruct f as [|header rows]; simpl; [intros [= <-]; by left|].
  pose proof (process_rows_spec (drop 6 header) st.1 rows) as Hrows.
  destruct (process_rows _ _ _ _) as [cd'|e']; simpl; [done|].
  intros [= <-]. destruct Hrows as [-> Hnot]. right. split; [done|].
  apply not_Forall_Exists in Hnot; [|intros r; apply Forall_dec; intros j;
    unfold convertible; apply _].
  apply Exists_exists in Hnot as (r & Hr & Hc). eauto.
Qed.

Lemma main_Crashed_inv (fs : list csv_file) e :
  main int fs = Crashed e →
  (e = StopIteration ∧ [] ∈ fs)
  ∨ (e = ValueError
     ∧ ∃ r, r ∈ all_records fs ∧ ¬ row_convertible int r.1 r.2).
Proof.
  destruct (decide (fs = [])) as [->|Hne]; [done|].
  rewrite main_nonempty by done.
  generalize (∅ : combined, ∅ : gset string). clear Hne.
  induction fs as [|f fs IH]; intros st; simpl; [by destruct st|].
  destruct (process_file int st f) as [st1|e1] eqn:Hf; simpl.
  - intros H. destruct (IH st1 H) as [[-> Hin]|(-> & r & Hr & Hc)].
    + left. split; [done|]. by right.
    + right. split; [done|]. exists r. split; [|done].
      rewrite all_records_cons. apply elem_of_app. by right.
  - intros [= <-].
    destruct (process_file_Raise st f e1 Hf) as [[-> ->]|(-> & r & Hr & Hc)].
    + left. split; [done|]. by left.
    + right. split; [done|]. exists r. split; [|done].
      rewrite all_records_cons. apply elem_of_app. by left.
Qed.

(** Of the exceptions that the processing of the rows read can raise, those
    of [next(reader)], of indexing a row and of [int()]: [main] never ends
    with an [IndexError]; when it ends with the [StopIteration] of
    [next(reader)] some input file has no row at all; when it ends with the
    [ValueError] of [int()] some record has a field that [int()] rejects.
    (The exceptions of opening, decoding and parsing a file are not among
    the outcomes of [main] here.) *)
Theorem main_crash_kinds (fs : list csv_file) e :
  main int fs = Crashed e →
  e ≠ IndexError
  ∧ (e = StopIteration → [] ∈ fs)
  ∧ (e = ValueError
     → ∃ r, r ∈ all_records fs ∧ ¬ row_convertible int r.1 r.2).
Proof.
  intros [[-> Hin]|(-> & Hr)]%main_Crashed_inv; by repeat split.
Qed.

(** A file without any row, not even a header, ends the run with
    [StopIteration] once the files listed before it have been read: nothing
    is written, whatever the other files hold. *)
Theorem empty_file_stops_run (before after : list csv_file) :
  Forall (convertible_file int) before →
  main int (before ++ [] :: after) = Crashed StopIteration.
Proof.
  intros Hc. rewrite main_nonempty by (by destruct before).
  rewrite process_files_app.
  pose proof (process_files_spec (∅, ∅) before) as H.
  destruct (process_files int _ before) as [st|e]; [done|].
  by destruct H.
Qed.

(** *** What the loop body reads of a row *)

(** The language loop sees of a row its length and the fields from
    position [i + 6] on, as far as the language columns reach. *)
Lemma add_languages_agree date (row row' : csv_row) i langs cd :
  (∀ j, (i ≤ j < i + length langs)%nat →
        ((j + 6 < length row)%nat ↔ (j + 6 < length row')%nat)
        ∧ ((j + 6 < length row)%nat → row !! (j + 6)%nat = row' !! (j + 6)%nat)) →
  add_languages int date row i langs cd = add_languages int date row' i langs cd.
Proof.
  revert i cd. induction langs as [|lang rest IH]; intros i cd H; simpl; [done|].
  destruct (H i ltac:(simpl; lia)) as [Hlen Hget].
  assert (∀ cd1, add_languages int date row (S i) rest cd1
                 = add_languages int date row' (S i) rest cd1) as Hrest.
  { intros cd1. apply IH. intros j Hj. apply H. simpl. lia. }
  case_bool_decide as Hi.
  - rewrite bool_decide_eq_true_2 by by apply Hlen.
    unfold Py.getitem. rewrite <- (Hget Hi).
    destruct (row !! (i + 6)%nat) as [f|]; simpl; [|done].
    destruct (Py.truthy f); [|apply Hrest].
    destruct (to_int int f); simpl; [apply Hrest|done].
  - rewrite bool_decide_eq_false_2 by (by rewrite <- Hlen). apply Hrest.
Qed.

(** On a row of at least 6 fields the body reads the date, converts
    [lines_of_code] and [delta], and runs the language loop. *)
Lemma process_row_long langs cd (row : csv_row) :
  (6 ≤ length row)%nat →
  process_row int langs cd row
  = (lines_of_code ← int_or_zero int (field row 4);
     delta ← int_or_zero int (field row 5);
     add_languages int (field row 2) row 0 langs
       (add_count (field row 2) "total_loc" lines_of_code cd)).
Proof.
  intros Hlen. unfold process_row. rewrite bool_decide_eq_false_2 by lia.
  destruct (lookup_lt_is_Some_2 row 0%nat ltac:(lia)) as [f0 Hf0].
  destruct (lookup_lt_is_Some_2 row 1%nat ltac:(lia)) as [f1 Hf1].
  destruct (lookup_lt_is_Some_2 row 2%nat ltac:(lia)) as [f2 Hf2].
  destruct (lookup_lt_is_Some_2 row 3%nat ltac:(lia)) as [f3 Hf3].
  destruct (lookup_lt_is_Some_2 row 4%nat ltac:(lia)) as [f4 Hf4].
  destruct (lookup_lt_is_Some_2 row 5%nat ltac:(lia)) as [f5 Hf5].
  destruct (getitem_lookup _ _ _ Hf0) as [-> _].
  destruct (getitem_lookup _ _ _ Hf1) as [-> _].
  destruct (getitem_lookup _ _ _ Hf2) as [-> ->].
  destruct (getitem_lookup _ _ _ Hf3) as [-> _].
  destruct (getitem_lookup _ _ _ Hf4) as [-> ->].
  destruct (getitem_lookup _ _ _ Hf5) as [-> ->].
  done.
Qed.

Lemma field_insert_ne (row : csv_row) i j x :
  i ≠ j → field (<[i := x]> row) j = field row j.
Proof. intros H. unfold field. by rewrite list_lookup_insert_ne. Qed.

Lemma add_languages_insert date (row : csv_row) i x langs cd :
  (i < 6)%nat →
  add_languages int date (<[i := x]> row) 0 langs cd
  = add_languages int date row 0 langs cd.
Proof.
  intros Hi. apply add_languages_agree. intros j Hj.
  rewrite length_insert. split; [done|]. intros _.
  apply list_lookup_insert_ne. lia.
Qed.

(** The repository name, the commit hash and the author of a row are read
    and never used: with any other value in their place the loop body does
    the same. Rows are summed by date alone, whatever repository they name. *)
Theorem identity_fields_unused langs cd (row : csv_row) (i : nat) x :
  i ∈ [0; 1; 3]%nat →
  process_row int langs cd (<[i := x]> row) = process_row int langs cd row.
Proof.
  intros Hi.
  assert (i < 6 ∧ i ≠ 2 ∧ i ≠ 4 ∧ i ≠ 5)%nat as (Hi6 & H2 & H4 & H5)
    by (set_unfold in Hi; lia).
  destruct (decide (length row < 6)%nat) as [Hshort|Hlong].
  - rewrite !process_row_short; [done..|by rewrite length_insert].
  - rewrite !process_row_long by (rewrite ?length_insert; lia).
    rewrite !field_insert_ne by done.
    destruct (int_or_zero int (field row 4)); simpl; [|done].
    destruct (int_or_zero int (field row 5)); simpl; [|done].
    by apply add_languages_insert.
Qed.

(** The delta of a row is converted and then dropped: a delta that [int()]
    rejects ends the run with [ValueError], and any two deltas that [int()]
    accepts give the same accumulators. *)
Theorem delta_converted_but_unused langs cd (row : csv_row) :
  (6 ≤ length row)%nat →
  convertible int (field row 4) →
  (¬ convertible int (field row 5) →
   process_row int langs cd row = Raise ValueError)
  ∧ ∀ d, convertible int (field row 5) → convertible int d →
         process_row int langs cd (<[5%nat := d]> row)
         = process_row int langs cd row.
Proof.
  intros Hlen H4. split.
  - intros H5. rewrite process_row_long by done.
    destruct (int_or_zero_cases (field row 4)) as [[_ ->]|[? _]]; [|done].
    destruct (int_or_zero_cases (field row 5)) as [[? _]|[_ ->]]; done.
  - intros d H5 Hd.
    rewrite !process_row_long by (rewrite ?length_insert; lia).
    rewrite (field_insert_ne row 5 4), (field_insert_ne row 5 2) by lia.
    assert (field (<[5%nat := d]> row) 5 = d) as ->.
    { unfold field. by rewrite list_lookup_insert_eq by lia. }
    destruct (int_or_zero_cases (field row 4)) as [[_ ->]|[? _]]; [|done].
    destruct (int_or_zero_cases (field row 5)) as [[_ ->]|[? _]]; [|done].
    destruct (int_or_zero_cases d) as [[_ ->]|[? _]]; [|done].
    simpl. apply add_languages_insert. lia.
Qed.

(** Fields beyond the last language column of the header are never read. *)
Theorem extra_fields_ignored langs cd (row extra : csv_row) :
  (6 + length langs ≤ length row)%nat →
  process_row int langs cd (row ++ extra) = process_row int langs cd row.
Proof.
  intros Hlen.
  rewrite !process_row_long by (rewrite ?length_app; lia).
  unfold field. rewrite !lookup_app_l by lia.
  destruct (int_or_zero int (default "" (row !! 4%nat))); simpl; [|done].
  destruct (int_or_zero int (default "" (row !! 5%nat))); simpl; [|done].
  apply add_languages_agree. intros j Hj.
  rewrite length_app. split; [lia|]. intros _.
  apply lookup_app_l. lia.
Qed.

(** *** Files and rows *)

(** A series may be split over two files with the same header: the run does
    the same, down to the exception it raises. *)
Theorem split_file_same_run (before after : list csv_file) (header : csv_row)
    (rows1 rows2 : list csv_row) :
  main int (before ++ (header :: rows1) :: (header :: rows2) :: after)
  = main int (before ++ (header :: rows1 ++ rows2) :: after).
Proof.
  rewrite !main_nonempty by (by destruct before).
  rewrite !process_files_app.
  destruct (process_files int _ before) as [[cd langs]|e]; simpl; [|done].
  rewrite process_rows_app.
  destruct (process_rows int _ cd rows1) as [cd1|e]; simpl; [|done].
  destruct (process_rows int _ cd1 rows2) as [cd2|e]; simpl; [|done].
  replace (langs ∪ list_to_set (drop 6 header) ∪ list_to_set (drop 6 header))
    with (langs ∪ list_to_set (drop 6 header) : gset string) by set_solver.
  done.
Qed.

(** The output has one row for every distinct date of the records other
    than the anchor date, after the header and the anchor row. *)
Theorem one_row_per_date (fs : list csv_file) out :
  main int fs = Written out →
  length out
  = (2 + size (record_dates (all_records fs) ∖ {[INITIAL_DATE]}))%nat.
Proof.
  intros Hout.
  destruct (main_Written_inv fs out Hout) as (cd & _ & _ & -> & _ & Hdom).
  unfold write_output. simpl. rewrite length_fmap. do 2 f_equal.
  rewrite sorted_Permutation, <- Hdom.
  unfold size, set_size. simpl. apply Permutation_length.
  apply NoDup_Permutation.
  - apply NoDup_filter, NoDup_elements.
  - apply NoDup_elements.
  - intros D. rewrite list_elem_of_filter, !elem_of_elements. set_solver.
Qed.

End AggregatorFacts.

(** * Properties of the series builder *)

Section BuilderFacts.

Import Builder.

Variable repo_short_name : string.
Variable language_columns : list string.

Local Abbreviation loop := (commit_loop repo_short_name language_columns).
Local Abbreviation start :=
  {| prev_total_lines := 0; repo_rows := []; combined_rows := [] |}.
Local Abbreviation run := (commit_loop repo_short_name language_columns start 0).
Local Abbreviation failed c := (total_of language_columns c = None).

Lemma total_of_count c lang_lines total_lines :
  count language_columns c = Some (lang_lines, total_lines) →
  total_of language_columns c = Some total_lines.
Proof. intros H. unfold total_of. by rewrite H. Qed.

Lemma failed_count c : failed c → count language_columns c = None.
Proof. unfold total_of. by destruct (count _ _). Qed.

Lemma commit_loop_snoc st i (l : list (commit * write_outcome)) cw :
  loop st i (l ++ [cw])
  = process_commit repo_short_name language_columns (loop st i l)
      (i + length l) cw.
Proof.
  revert st i. induction l as [|cw' l IH]; intros st i; simpl.
  - by rewrite Nat.add_0_r.
  - rewrite IH. f_equal. lia.
Qed.

(** The loop keeps in [prev_total_lines] the total of the last commit it
    could count, whatever became of the writes of its row. *)
Lemma commit_loop_prev st i (l : list (commit * write_outcome)) :
  prev_total_lines (loop st i l)
  = default (prev_total_lines st)
      (last (omap (total_of language_columns) l.*1)).
Proof.
  revert st i. induction l as [|[c w] l IH]; intros st i; simpl; [done|].
  rewrite IH. unfold process_commit, total_of. simpl.
  destruct (count language_columns c) as [[lang_lines total_lines]|]; simpl.
  - rewrite last_cons. by destruct (last _).
  - done.
Qed.

(** *** What the counting loop adds up *)

Import Series.

Lemma columns_lookup_list (ls : list string) (l : string) :
  (list_to_map ((λ lang, (lang, 0)) <$> ls) : gmap string Z) !! l
  = if decide (l ∈ ls) then Some 0 else None.
Proof.
  induction ls as [|lang rest IH]; [done|].
  rewrite fmap_cons. cbn [list_to_map foldr uncurry fst snd].
  destruct (decide (lang = l)) as [->|Hne].
  - rewrite lookup_insert_eq. rewrite decide_True by set_solver. done.
  - rewrite lookup_insert_ne by done. rewrite IH.
    repeat case_decide; set_solver.
Qed.

Lemma columns_lookup (l : string) :
  (list_to_map ((λ lang, (lang, 0)) <$> language_columns) : gmap string Z) !! l
  = if decide (l ∈ language_columns) then Some 0 else None.
Proof. apply columns_lookup_list. Qed.

Lemma count_lines_spec (data : list (string * option Z)) (m : gmap string Z) t :
  (∀ l, is_Some (m !! l) ↔ l ∈ language_columns) →
  match count_lines data m t with
  | Some (m', t') =>
      Forall (λ e, counted_entry language_columns e → is_Some e.2) data
      ∧ t' = t + sum_with (λ e, default 0 e.2)
                   (filter (counted_entry language_columns) data)
      ∧ (∀ l, is_Some (m' !! l) ↔ l ∈ language_columns)
  | None =>
      Exists (λ e, counted_entry language_columns e ∧ e.2 = None) data
  end.
Proof.
  revert m t. induction data as [|[lang entry] data IH]; intros m t Hm; simpl.
  { split; [constructor|]. split; [lia|done]. }
  destruct (decide (counted_entry language_columns (lang, entry))) as [Hc|Hc].
  - rewrite filter_cons_True by done.
    destruct Hc as [Hmeta Hin]. simpl in *.
    rewrite bool_decide_eq_true_2 by done.
    rewrite bool_decide_eq_true_2 by (by apply Hm). simpl.
    destruct entry as [code|]; simpl.
    + specialize (IH (<[lang := code]> m) (t + code)).
      destruct (count_lines _ _ _) as [[m' t']|].
      * destruct IH as (Hall & -> & Hm').
        { intros l. rewrite lookup_insert. case_decide; subst; [|apply Hm].
          split; [done|]. intros _. by eexists. }
        split; [constructor; [by eexists|done]|]. split; [simpl; lia|done].
      * apply Exists_cons_tl. apply IH.
        intros l. rewrite lookup_insert. case_decide; subst; [|apply Hm].
        split; [done|]. intros _. by eexists.
    + apply Exists_cons_hd. done.
  - rewrite filter_cons_False by done.
    assert (bool_decide (lang ∉ ["header"; "SUM"])
            && bool_decide (is_Some (m !! lang)) = false) as ->.
    { apply andb_false_iff. unfold counted_entry in Hc. simpl in Hc.
      destruct (decide (lang ∉ ["header"; "SUM"])) as [?|?].
      - right. apply bool_decide_eq_false_2. rewrite Hm. tauto.
      - left. by apply bool_decide_eq_false_2. }
    specialize (IH m t Hm).
    destruct (count_lines _ _ _) as [[m' t']|].
    + destruct IH as (Hall & -> & Hm').
      split; [constructor; [done|done]|]. done.
    + by apply Exists_cons_tl.
Qed.

(** The total of a commit is the sum of the ["code"] counts of the entries
    of the counter's dictionary whose key is a language column, each of which
    has such a count; the entries [header] and [SUM] and the languages that
    are no column add nothing. The counting fails exactly when the counter
    gave nothing or one of the entries counted has no ["code"]. *)
Theorem total_is_sum_of_counted_entries (c : commit) :
  (∀ total, total_of language_columns c = Some total →
     ∃ data, cloc c = Some data
       ∧ Forall (λ e, counted_entry language_columns e → is_Some e.2) data
       ∧ total = sum_with (λ e, default 0 e.2)
                   (filter (counted_entry language_columns) data))
  ∧ (total_of language_columns c = None
     ↔ cloc c = None
       ∨ ∃ data e, cloc c = Some data ∧ e ∈ data
           ∧ counted_entry language_columns e ∧ e.2 = None).
Proof.
  assert (∀ l, is_Some ((list_to_map ((λ lang, (lang, 0)) <$> language_columns)
                          : gmap string Z) !! l) ↔ l ∈ language_columns) as Hdom.
  { intros l. rewrite columns_lookup. case_decide; [done|].
    split; [by intros [? ?]|done]. }
  unfold total_of, count. destruct (cloc c) as [data|]; simpl.
  2:{ split; [done|]. split; [by left|done]. }
  pose proof (count_lines_spec data
                (list_to_map ((λ lang, (lang, 0)) <$> language_columns)) 0 Hdom)
    as H.
  destruct (count_lines _ _ _) as [[m t]|]; simpl.
  - destruct H as (Hall & -> & _). split.
    + intros total [= <-]. exists data. split; [done|]. split; [done|lia].
    + split; [done|]. intros [?|(data' & e & [= <-] & He & Hc & Hn)]; [done|].
      apply (proj1 (Forall_forall _ _) Hall e He) in Hc as [x Hx]. congruence.
  - split; [done|]. split; [|done]. intros _. right.
    apply Exists_exists in H as (e & He & Hc & Hn). by eauto 6.
Qed.

(** *** The rows of the combined file *)

(** The total of a commit whose row reaches the combined file. *)
Local Abbreviation written_total cw :=
  (if decide (cw.2 = BothWritten) then total_of language_columns cw.1
   else None).

Lemma combined_rows_totals st i (l : list (commit * write_outcome)) :
  row_total_loc <$> combined_rows (loop st i l)
  = (row_total_loc <$> combined_rows st) ++ omap (λ cw, written_total cw) l.
Proof.
  revert st i. induction l as [|[c w] l IH]; intros st i; simpl.
  { by rewrite app_nil_r. }
  rewrite IH. unfold process_commit, total_of. simpl.
  destruct (count language_columns c) as [[m t]|]; simpl.
  - destruct w; simpl; [|done..]. by rewrite fmap_app, <- app_assoc.
  - by destruct w.
Qed.

Lemma combined_rows_width st i (l : list (commit * write_outcome)) :
  Forall (λ row, length row = (6 + length language_columns)%nat)
         (combined_rows st) →
  Forall (λ row, length row = (6 + length language_columns)%nat)
         (combined_rows (loop st i l)).
Proof.
  revert st i. induction l as [|[c w] l IH]; intros st i Hst; simpl; [done|].
  apply IH. unfold process_commit. simpl.
  destruct (count language_columns c) as [[m t]|]; simpl; [|done].
  destruct w; [|done..].
  apply Forall_app. split; [done|]. constructor; [|done].
  unfold row_data. simpl. by rewrite length_fmap.
Qed.

(** The rows of the combined file for one repository are the initial row
    and, when the second clone succeeds, one row for every commit that could
    be counted and whose two writes completed, in the order of the commits,
    each with the total of its commit; every row has the 6 leading fields
    and one field for every language column. When the second clone fails the
    initial row stands alone. *)
Theorem combined_series_rows (clone_ok : bool)
    (commits : list (commit * write_outcome)) :
  row_total_loc
    <$> combined_series repo_short_name language_columns clone_ok commits
  = 0 :: (if clone_ok then omap (λ cw, written_total cw) commits else [])
  ∧ Forall (λ row, length row = (6 + length language_columns)%nat)
           (combined_series repo_short_name language_columns clone_ok commits).
Proof.
  unfold combined_series. split.
  - rewrite fmap_cons. f_equal. destruct clone_ok; [|done].
    by rewrite combined_rows_totals.
  - constructor.
    + unfold initial_row. simpl. by rewrite length_replicate.
    + destruct clone_ok; [|done]. by apply combined_rows_width.
Qed.

Lemma combined_rows_deltas st i (l : list (commit * write_outcome)) :
  Forall (λ cw, cw.2 = BothWritten) l →
  (i = 0%nat → prev_total_lines st = 0) →
  sum_with row_delta (combined_rows (loop st i l)) + prev_total_lines st
  = sum_with row_delta (combined_rows st) + prev_total_lines (loop st i l).
Proof.
  intros Hall. revert st i.
  induction Hall as [|[c w] l Hw _ IH]; intros st i Hi; simpl; [done|].
  simpl in Hw. subst w.
  pose proof (IH (process_commit repo_short_name language_columns st i
                    (c, BothWritten)) (S i) ltac:(done)) as H.
  revert H. generalize (loop (process_commit repo_short_name language_columns
                                st i (c, BothWritten)) (S i) l).
  intros st'. unfold process_commit. simpl.
  destruct (count language_columns c) as [[m t]|]; simpl; [|done].
  rewrite sum_with_app. simpl.
  assert (∀ d, row_delta (row_data repo_short_name language_columns c m t d) = d)
    as -> by done.
  case_bool_decide; [lia|]. rewrite Hi by lia. lia.
Qed.

(** When no write raises, the deltas of the rows of a repository in the
    combined file add up to the total of the last commit that could be
    counted (to 0 when there is none). *)
Theorem deltas_add_up (commits : list (commit * write_outcome)) :
  Forall (λ cw, cw.2 = BothWritten) commits →
  sum_with row_delta (combined_rows (run commits))
  = previous_total language_columns commits.*1.
Proof.
  intros Hall.
  pose proof (combined_rows_deltas start 0 commits Hall (λ _, eq_refl)) as H.
  simpl in H. rewrite commit_loop_prev in H. simpl in H.
  unfold previous_total. lia.
Qed.

(** *** The delta of a row *)

Lemma written_totals_all (l : list (commit * write_outcome)) :
  Forall (λ cw, cw.2 = BothWritten) l →
  omap (λ cw, written_total cw) l = omap (total_of language_columns) l.*1.
Proof.
  induction 1 as [|[c w] l Hw _ IH]; [done|]. cbn [snd] in Hw. subst w.
  rewrite fmap_cons. cbn [omap list_omap fst snd].
  rewrite decide_True by done. by rewrite IH.
Qed.

(** The row of a commit that is counted and written carries the total of
    the commit and, as delta, the total less the total of the last commit
    counted before it (less 0 when there is none), whether or not that commit
    has a row. When every write before it completed, that commit is the one
    of the row written last. *)
Lemma delta_of_written_row (earlier : list (commit * write_outcome)) c m t :
  count language_columns c = Some (m, t) →
  ∃ row,
    combined_rows (run (earlier ++ [(c, BothWritten)]))
    = combined_rows (run earlier) ++ [row]
    ∧ row_total_loc row = t
    ∧ row_delta row = t - previous_total language_columns earlier.*1
    ∧ (Forall (λ cw, cw.2 = BothWritten) earlier →
       previous_total language_columns earlier.*1
       = default 0 (last (row_total_loc <$> combined_rows (run earlier)))).
Proof.
  intros Hc. rewrite commit_loop_snoc. unfold process_commit at 1.
  cbn [fst snd]. rewrite Hc. cbn [combined_rows].
  eexists. split; [done|]. split; [done|]. split.
  - unfold row_delta, row_data. cbn [app lookup list_lookup].
    rewrite commit_loop_prev. unfold previous_total. cbn [prev_total_lines].
    case_bool_decide as Hi; [done|].
    destruct earlier; [simpl; lia|simpl in Hi; lia].
  - intros Hall. rewrite combined_rows_totals. cbn [combined_rows fmap list_fmap app].
    by rewrite written_totals_all.
Qed.

(** *** The invariant of the records written *)

Local Abbreviation columns_sum m :=
  (sum_with (λ l, default 0 ((m : gmap string Z) !! l)) language_columns).

Lemma sum_insert (ls : list string) (m : gmap string Z) lang code :
  NoDup ls → lang ∈ ls →
  sum_with (λ l, default 0 (<[lang := code]> m !! l)) ls
  = sum_with (λ l, default 0 (m !! l)) ls - default 0 (m !! lang) + code.
Proof.
  intros Hnd. induction Hnd as [|l ls Hl Hnd IH]; intros Hin.
  { by apply elem_of_nil in Hin. }
  simpl. apply elem_of_cons in Hin as [->|Hin].
  - rewrite lookup_insert_eq. simpl.
    rewrite (sum_with_ext _ (λ l, default 0 (m !! l))); [lia|].
    intros l' Hl'. rewrite lookup_insert_ne; [done|]. by intros ->.
  - rewrite lookup_insert_ne by (by intros ->). rewrite IH by done. lia.
Qed.

Lemma count_lines_sum (data : list (string * option Z)) (m : gmap string Z) t m' t' :
  NoDup language_columns → NoDup data.*1 →
  (∀ l, is_Some (m !! l) ↔ l ∈ language_columns) →
  (∀ l, l ∈ data.*1 → l ∈ language_columns → m !! l = Some 0) →
  count_lines data m t = Some (m', t') →
  t' - t = columns_sum m' - columns_sum m.
Proof.
  intros Hcols. revert m t.
  induction data as [|[lang entry] data IH]; intros m t Hnd Hdom Hzero; simpl.
  { intros [= <- <-]. lia. }
  rewrite fmap_cons in Hnd, Hzero. simpl in Hnd, Hzero.
  apply NoDup_cons in Hnd as [Hlang Hnd].
  destruct (bool_decide (lang ∉ ["header"; "SUM"])
            && bool_decide (is_Some (m !! lang))) eqn:Hb.
  - apply andb_true_iff in Hb as [_ Hsome%bool_decide_eq_true].
    assert (lang ∈ language_columns) as Hin by by apply Hdom.
    destruct entry as [code|]; simpl; [|done]. intros Hcount.
    apply IH in Hcount; [|done| |].
    + rewrite sum_insert in Hcount by done.
      rewrite (Hzero lang) in Hcount by (done || set_solver).
      simpl in Hcount. lia.
    + intros l. rewrite lookup_insert. case_decide; subst; [|apply Hdom].
      split; [done|]. intros _. by eexists.
    + intros l Hl Hlc. rewrite lookup_insert_ne by (intros ->; done).
      apply Hzero; [set_solver|done].
  - intros Hcount. apply IH in Hcount; [done|done|done|].
    intros l Hl Hlc. apply Hzero; [set_solver|done].
Qed.

(** Every row of the combined file satisfies the invariant of a record:
    its total is the sum of its language fields, whatever writes raise.
    (The language columns are a sorted set and the keys of a dictionary are
    distinct.) *)
Theorem combined_series_invariant (clone_ok : bool)
    (commits : list (commit * write_outcome)) :
  NoDup language_columns →
  Forall (λ cw, ∀ data, cloc cw.1 = Some data → NoDup data.*1) commits →
  Forall (λ row, row_total_loc row = sum_with id (row_language_values row))
         (combined_series repo_short_name language_columns clone_ok commits).
Proof.
  intros Hcols Hkeys. unfold combined_series. constructor.
  { unfold row_total_loc, row_language_values, initial_row. simpl.
    rewrite sum_with_zero; [done|].
    intros a (x & -> & Hx)%list_elem_of_fmap.
    by apply elem_of_replicate in Hx as [-> _]. }
  destruct clone_ok; [|done].
  generalize 0%nat.
  assert (Forall (λ row, row_total_loc row = sum_with id (row_language_values row))
            (combined_rows start)) as Hst by constructor.
  revert Hst. generalize start.
  induction Hkeys as [|[c w] l Hc _ IH]; intros st Hst i; simpl; [done|].
  apply IH. unfold process_commit. simpl in *.
  destruct (count language_columns c) as [[m t]|] eqn:Hcount; simpl; [|done].
  destruct w; [|done..].
  apply Forall_app. split; [done|]. constructor; [|done].
  unfold count in Hcount. destruct (cloc c) as [data|] eqn:Hdata; [|done].
  simpl in Hcount.
  apply count_lines_sum in Hcount; [|done|by apply Hc| |].
  - unfold row_total_loc, row_language_values, row_data. simpl.
    rewrite (sum_with_zero (λ l, default 0 (list_to_map _ !! l))) in Hcount.
    + rewrite ?drop_0, !sum_with_fmap. simpl. lia.
    + intros k _. rewrite columns_lookup. by case_decide.
  - intros k. rewrite columns_lookup. case_decide; [done|].
    split; [by intros [? ?]|done].
  - intros k _ Hk. rewrite columns_lookup. by rewrite decide_True.
Qed.

End BuilderFacts.

(** * Properties of the first pass *)

Section DiscoveryFacts.

Import Discovery.

Lemma filter_ext_in {A} (P1 P2 : A → Prop)
    `{!∀ x, Decision (P1 x), !∀ x, Decision (P2 x)} (l : list A) :
  (∀ x, x ∈ l → P1 x ↔ P2 x) → filter P1 l = filter P2 l.
Proof.
  induction l as [|a l IH]; intros Hext; [done|].
  rewrite !filter_cons.
  destruct (decide (P1 a)) as [H1|H1]; destruct (decide (P2 a)) as [H2|H2].
  - f_equal. apply IH. intros x Hx. apply Hext. by right.
  - exfalso. apply H2, Hext; [by left|done].
  - exfalso. apply H1, Hext; [by left|done].
  - apply IH. intros x Hx. apply Hext. by right.
Qed.

Lemma collect_spec (language_set : gset string) (commits : list analysed) :
  match collect language_set commits with
  | Some found =>
      Forall (λ c, checkout_ok c = true) commits
      ∧ ∀ L, L ∈ found
             ↔ L ∈ language_set
               ∨ ((L ∉ ["header"; "SUM"])
                  ∧ ∃ c cloc_data,
                      c ∈ commits ∧ keys c = Some cloc_data ∧ L ∈ cloc_data)
  | None => Exists (λ c, checkout_ok c = false) commits
  end.
Proof.
  revert language_set.
  induction commits as [|c commits IH]; intros language_set; simpl.
  { split; [constructor|]. intros L. split; [by left|].
    intros [?|(_ & c & ks & Hc & _)]; [done|]. by apply elem_of_nil in Hc. }
  destruct (checkout_ok c) eqn:Hck; [|by apply Exists_cons_hd].
  destruct (keys c) as [ks|] eqn:Hks.
  - specialize (IH (language_set
                    ∪ list_to_set (filter (λ lang, lang ∉ ["header"; "SUM"]) ks))).
    destruct (collect _ commits) as [found|]; [|by apply Exists_cons_tl].
    destruct IH as [Hall Hfound]. split; [by constructor|].
    intros L. rewrite Hfound, elem_of_union, elem_of_list_to_set,
      list_elem_of_filter.
    split.
    + intros [[?|[? ?]]|(? & c' & ks' & ? & ? & ?)]; [by left|right..].
      * split; [done|]. exists c, ks. split; [by left|done].
      * split; [done|]. exists c', ks'. split; [by right|done].
    + intros [?|(? & c' & ks' & [->|?]%elem_of_cons & ? & ?)].
      * by left; left.
      * left; right. by simplify_eq.
      * right. split; [done|]. by exists c', ks'.
  - specialize (IH language_set).
    destruct (collect _ commits) as [found|]; [|by apply Exists_cons_tl].
    destruct IH as [Hall Hfound]. split; [by constructor|].
    intros L. rewrite Hfound. split.
    + intros [?|(? & c' & ks' & ? & ? & ?)]; [by left|right].
      split; [done|]. exists c', ks'. split; [by right|done].
    + intros [?|(? & c' & ks' & [->|?]%elem_of_cons & ? & ?)];
        [by left|congruence|right].
      split; [done|]. by exists c', ks'.
Qed.

Lemma process_repository_inv clone_ok repo_ok (commits : list analysed)
    commits' languages :
  process_repository clone_ok repo_ok commits = Some (commits', languages) →
  commits' = commits
  ∧ ∃ found, collect ∅ commits = Some found
             ∧ languages = Py.sorted (elements found).
Proof.
  unfold process_repository. destruct clone_ok, repo_ok; try done.
  destruct (collect ∅ commits) as [found|]; simpl; [|done].
  intros [= <- <-]. eauto.
Qed.

Lemma elem_of_discovered clone_ok repo_ok (commits : list analysed)
    commits' languages L :
  process_repository clone_ok repo_ok commits = Some (commits', languages) →
  L ∈ languages
  ↔ (L ∉ ["header"; "SUM"])
    ∧ ∃ c cloc_data, c ∈ commits ∧ keys c = Some cloc_data ∧ L ∈ cloc_data.
Proof.
  intros Hp.
  destruct (process_repository_inv _ _ _ _ _ Hp) as (_ & found & Hc & ->).
  pose proof (collect_spec ∅ commits) as H. rewrite Hc in H.
  destruct H as [_ Hfound].
  rewrite elem_of_sorted, elem_of_elements, Hfound. set_solver.
Qed.

(** The languages of a repository are the keys of the dictionaries of its
    commits, [header] and [SUM] left out, in strictly increasing order; a
    commit on which the counter fails adds none. *)
Theorem discovered_languages clone_ok repo_ok (commits : list analysed)
    commits' languages :
  process_repository clone_ok repo_ok commits = Some (commits', languages) →
  commits' = commits
  ∧ StronglySorted date_lt languages
  ∧ ∀ L, L ∈ languages
         ↔ (L ∉ ["header"; "SUM"])
           ∧ ∃ c cloc_data,
               c ∈ commits ∧ keys c = Some cloc_data ∧ L ∈ cloc_data.
Proof.
  intros Hp.
  destruct (process_repository_inv _ _ _ _ _ Hp) as (-> & found & Hc & Hl).
  split; [done|]. split.
  - rewrite Hl. apply sorted_strict, NoDup_elements.
  - intros L. by apply (elem_of_discovered clone_ok repo_ok commits commits).
Qed.

(** The first pass gives up a repository when the clone fails, when the
    repository cannot be opened, or when the checkout of one of its commits
    fails; a failure of the counter gives up the commit only. *)
Theorem repository_given_up clone_ok repo_ok (commits : list analysed) :
  process_repository clone_ok repo_ok commits = None
  ↔ clone_ok = false ∨ repo_ok = false
    ∨ ∃ c, c ∈ commits ∧ checkout_ok c = false.
Proof.
  unfold process_repository. destruct clone_ok; [|naive_solver].
  destruct repo_ok; [|naive_solver].
  pose proof (collect_spec ∅ commits) as H.
  destruct (collect ∅ commits) as [found|]; simpl.
  - destruct H as [Hall _]. split; [done|].
    intros [?|[?|(c & Hc & Hck)]]; [done..|].
    rewrite (proj1 (Forall_forall _ _) Hall c Hc) in Hck. done.
  - split; [|done]. intros _. right; right.
    by apply Exists_exists in H.
Qed.

Local Abbreviation first_pass inputs :=
  ((λ '(clone_ok, repo_ok, commits), process_repository clone_ok repo_ok commits)
     <$> (inputs : list (bool * bool * list analysed))).

(** A language of a repository that was processed is a language column. *)
Lemma language_columns_intro
    (inputs : list (bool * bool * list analysed)) clone_ok repo_ok commits
    languages L :
  (clone_ok, repo_ok, commits) ∈ inputs →
  process_repository clone_ok repo_ok commits = Some (commits, languages) →
  L ∈ languages →
  L ∈ language_columns (first_pass inputs).
Proof.
  intros Hin Hp HL. unfold language_columns.
  rewrite elem_of_sorted, elem_of_elements, elem_of_union_list.
  apply (elem_of_discovered _ _ _ _ _ L Hp) in HL as HL'.
  destruct HL' as (_ & c & ks & Hc & _).
  exists (list_to_set languages). split; [|by apply elem_of_list_to_set].
  apply list_elem_of_fmap. exists (Some (commits, languages)). split.
  - destruct commits as [|c0 commits]; [by apply elem_of_nil in Hc|].
    destruct languages as [|l0 languages]; [by apply elem_of_nil in HL|].
    done.
  - apply list_elem_of_fmap. exists (clone_ok, repo_ok, commits).
    by rewrite Hp.
Qed.

(** A language discovered in any repository is a language column: the test
    of line 126, which drops the repositories without commits or without
    languages, loses none. *)
Theorem every_discovered_language_is_a_column
    (inputs : list (bool * bool * list analysed)) L :
  L ∈ language_columns (first_pass inputs)
  ↔ ∃ clone_ok repo_ok commits languages,
      (clone_ok, repo_ok, commits) ∈ inputs
      ∧ process_repository clone_ok repo_ok commits = Some (commits, languages)
      ∧ L ∈ languages.
Proof.
  split.
  - unfold language_columns.
    rewrite elem_of_sorted, elem_of_elements, elem_of_union_list.
    intros (X & HX & HL).
    apply list_elem_of_fmap in HX as (r & -> & Hr).
    apply list_elem_of_fmap in Hr as ([[clone_ok repo_ok] commits] & -> & Hin).
    destruct (process_repository clone_ok repo_ok commits)
      as [[commits' languages]|] eqn:Hp; [|set_solver].
    destruct (process_repository_inv _ _ _ _ _ Hp) as (-> & _).
    exists clone_ok, repo_ok, commits, languages.
    split; [done|]. split; [done|].
    destruct (kept _); set_solver.
  - intros (clone_ok & repo_ok & commits & languages & Hin & Hp & HL).
    by eapply language_columns_intro.
Qed.

(** The two passes together: when the counter reports for a commit in the
    second pass the dictionary it reported in the first, every language of
    the dictionary is a column, so the total of the commit is the sum of the
    ["code"] counts of all its entries but [header] and [SUM]. *)
Theorem two_passes_count_every_language
    (inputs : list (bool * bool * list analysed)) clone_ok repo_ok commits
    languages (a : analysed) (c : Builder.commit) data total :
  (clone_ok, repo_ok, commits) ∈ inputs →
  process_repository clone_ok repo_ok commits = Some (commits, languages) →
  a ∈ commits →
  Builder.cloc c = Some data →
  keys a = Some data.*1 →
  Builder.total_of (language_columns (first_pass inputs)) c = Some total →
  total = sum_with (λ e, default 0 e.2)
            (filter (λ e, e.1 ∉ ["header"; "SUM"]) data).
Proof.
  intros Hin Hp Ha Hdata Hkeys Htotal.
  unfold Builder.total_of, Builder.count in Htotal. rewrite Hdata in Htotal.
  simpl in Htotal.
  pose proof (count_lines_spec (language_columns (first_pass inputs)) data
                (list_to_map ((λ lang, (lang, 0))
                                <$> language_columns (first_pass inputs))) 0) as H.
  destruct (Builder.count_lines _ _ _) as [[m t]|]; [|done].
  simpl in Htotal. injection Htotal as <-.
  destruct H as (_ & -> & _).
  { intros l. rewrite columns_lookup. case_decide; [done|].
    split; [by intros [? ?]|done]. }
  rewrite Z.add_0_l. f_equal.
  apply filter_ext_in. intros e He.
  unfold Series.counted_entry. split; [tauto|]. intros Hmeta. split; [done|].
  apply (language_columns_intro inputs clone_ok repo_ok commits languages);
    [done..|].
  apply (elem_of_discovered _ _ _ _ _ e.1 Hp).
  split; [done|]. exists a, data.*1. split; [done|].
  split; [done|]. by apply list_elem_of_fmap_2.
Qed.

End DiscoveryFacts.

(** * Properties of the utilities *)

Section UtilsFacts.

Import Utils.

Local Abbreviation chars := list_ascii_of_string.

Lemma append_cons a (s t : string) : String a s +:+ t = String a (s +:+ t).
Proof. done. Qed.

Lemma append_nil_l (t : string) : "" +:+ t = t.
Proof. done. Qed.

Lemma append_nil_r (s : string) : s +:+ "" = s.
Proof. induction s as [|a s IH]; [done|]. by rewrite append_cons, IH. Qed.

Lemma append_assoc (s1 s2 s3 : string) : (s1 +:+ s2) +:+ s3 = s1 +:+ (s2 +:+ s3).
Proof.
  induction s1 as [|a s1 IH]; [done|]. by rewrite !append_cons, IH.
Qed.

Lemma prefix_char c a s :
  String.prefix (String c "") (String a s) = bool_decide (c = a).
Proof.
  simpl. destruct (ascii_dec c a) as [->|Hne].
  - rewrite bool_decide_eq_true_2 by done. by destruct s.
  - by rewrite bool_decide_eq_false_2.
Qed.

(** Splitting at a single character. *)
Lemma split_go_item c cur item :
  c ∉ chars item →
  split_go (String c "") 0 cur item = [cur +:+ item]
  ∧ ∀ rest, split_go (String c "") 0 cur (item +:+ String c rest)
            = (cur +:+ item) :: split_go (String c "") 0 "" rest.
Proof.
  revert cur. induction item as [|a item IH]; intros cur Hc.
  - split; [by rewrite append_nil_r|]. intros rest.
    rewrite append_nil_l. cbn [split_go]. rewrite prefix_char.
    rewrite bool_decide_eq_true_2 by done. by rewrite append_nil_r.
  - cbn [chars] in Hc. apply not_elem_of_cons in Hc as [Hne Hc].
    destruct (IH (cur +:+ String a "") Hc) as [IH1 IH2].
    split.
    + cbn [split_go]. rewrite prefix_char, bool_decide_eq_false_2 by done.
      rewrite IH1. by rewrite append_assoc.
    + intros rest. rewrite append_cons. cbn [split_go].
      rewrite prefix_char, bool_decide_eq_false_2 by done.
      rewrite IH2. by rewrite append_assoc.
Qed.

Lemma split_go_char c cur a (s : string) :
  split_go (String c "") 0 cur (String a s)
  = if bool_decide (c = a) then cur :: split_go (String c "") 0 "" s
    else split_go (String c "") 0 (cur +:+ String a "") s.
Proof. cbn [split_go]. by rewrite prefix_char. Qed.

Lemma last_split_go c cur (base name : string) :
  c ∉ chars name →
  last (split_go (String c "") 0 cur (base +:+ String c name)) = Some name.
Proof.
  intros Hc. revert cur. induction base as [|a base IH]; intros cur.
  - rewrite append_nil_l, split_go_char.
    rewrite bool_decide_eq_true_2 by done.
    destruct (split_go_item c "" name Hc) as [-> _]. done.
  - rewrite append_cons, split_go_char.
    case_bool_decide.
    + rewrite last_cons, IH. done.
    + apply IH.
Qed.

(** The short name of a repository, [repo_name.split("/")[-1]]: what
    follows the last slash, and the whole name when it has no slash. It is
    always there: the index is never out of range. *)
Theorem last_segment_spec (base name : string) :
  "/"%char ∉ list_ascii_of_string name →
  last_segment (base +:+ "/" +:+ name) = Ok name
  ∧ last_segment name = Ok name.
Proof.
  intros Hc. unfold last_segment, split, last_item, mbind, result_bind. split.
  - change ("/" +:+ name) with (String "/" name).
    by rewrite last_split_go.
  - by destruct (split_go_item "/" "" name Hc) as [-> _].
Qed.

End UtilsFacts.

(** * Properties of [get_env_list] *)

Section EnvUtilsFacts.
Import EnvUtils.
Context {char : Type} `{EqDecision char}.
Variable isspace : char → bool.

Local Abbreviation lstrip := (EnvUtils.lstrip isspace).
Local Abbreviation rstrip := (EnvUtils.rstrip isspace).
Local Abbreviation strip := (EnvUtils.strip isspace).
Local Abbreviation stripped := (EnvUtils.stripped isspace).

Lemma lstrip_head s c : head (lstrip s) = Some c → isspace c = false.
Proof.
  induction s as [|a s IH]; simpl; [done|].
  destruct (isspace a) eqn:Ha; [done|]. simpl. by intros [= <-].
Qed.

Lemma lstrip_suffix s : ∃ k, s = k ++ lstrip s ∧ Forall (λ c, isspace c = true) k.
Proof.
  induction s as [|a s (k & Hk & Hall)]; simpl; [by exists []|].
  destruct (isspace a) eqn:Ha.
  - exists (a :: k). split; [simpl; by f_equal|]. by constructor.
  - by exists [].
Qed.

Lemma lstrip_id s : (∀ c, head s = Some c → isspace c = false) → lstrip s = s.
Proof.
  destruct s as [|a s]; simpl; [done|]. intros H. by rewrite (H a).
Qed.

Lemma lstrip_last s c : last (lstrip s) = Some c → last s = Some c.
Proof.
  destruct (lstrip_suffix s) as (k & Hk & _). intros Hl.
  rewrite Hk. rewrite last_app, Hl. done.
Qed.

Lemma strip_stripped s : stripped (strip s).
Proof.
  unfold stripped, EnvUtils.strip, EnvUtils.rstrip. split; intros c.
  - rewrite head_reverse. intros Hl%lstrip_last.
    rewrite last_reverse in Hl. by apply lstrip_head in Hl.
  - rewrite last_reverse. apply lstrip_head.
Qed.

Lemma strip_id s : stripped s → strip s = s.
Proof.
  intros [Hh Hl]. unfold EnvUtils.strip, EnvUtils.rstrip.
  rewrite (lstrip_id s Hh). rewrite lstrip_id.
  - apply reverse_involutive.
  - intros c. rewrite head_reverse. apply Hl.
Qed.

Lemma startswith_char (c a : char) s :
  startswith (a :: s) [c] = bool_decide (c = a).
Proof. simpl. by rewrite andb_true_r. Qed.

Lemma split_go_piece (c : char) cur item :
  c ∉ item →
  split_go [c] 0 cur item = [cur ++ item]
  ∧ ∀ rest, split_go [c] 0 cur (item ++ c :: rest)
            = (cur ++ item) :: split_go [c] 0 [] rest.
Proof.
  revert cur. induction item as [|a item IH]; intros cur Hc.
  - split; [by rewrite app_nil_r|]. intros rest.
    cbn [app split_go]. rewrite startswith_char.
    rewrite bool_decide_eq_true_2 by done. by rewrite app_nil_r.
  - apply not_elem_of_cons in Hc as [Hne Hc].
    destruct (IH (cur ++ [a]) Hc) as [IH1 IH2].
    split.
    + cbn [split_go]. rewrite startswith_char, bool_decide_eq_false_2 by done.
      rewrite IH1. by rewrite <- app_assoc.
    + intros rest. cbn [app split_go].
      rewrite startswith_char, bool_decide_eq_false_2 by done.
      rewrite IH2. by rewrite <- app_assoc.
Qed.

Lemma split_join (c : char) (items : list (list char)) :
  items ≠ [] → Forall (λ item, c ∉ item) items →
  split_go [c] 0 [] (join [c] items) = items.
Proof.
  intros Hne Hall. induction Hall as [|item items Hc Hall IH]; [done|].
  destruct items as [|item' items].
  - simpl. by destruct (split_go_piece c [] item Hc) as [-> _].
  - change (join [c] (item :: item' :: items))
      with (item ++ c :: join [c] (item' :: items)).
    destruct (split_go_piece c [] item Hc) as [_ ->]. simpl. f_equal.
    by apply IH.
Qed.

Lemma filter_all {A} (P : A → Prop) `{!∀ x, Decision (P x)} (l : list A) :
  Forall P l → filter P l = l.
Proof.
  induction 1 as [|x l Hx _ IH]; [done|].
  rewrite filter_cons_True by done. by f_equal.
Qed.

Lemma lstrip_elem s c : c ∈ s → isspace c = false → c ∈ lstrip s.
Proof.
  intros Hc Hs. induction s as [|a s IH]; simpl; [done|].
  destruct (isspace a) eqn:Ha; [|done].
  apply elem_of_cons in Hc as [->|Hc]; [congruence|]. by apply IH.
Qed.

Lemma strip_elem s c : c ∈ s → isspace c = false → c ∈ strip s.
Proof.
  intros Hc Hs. unfold EnvUtils.strip, EnvUtils.rstrip.
  apply elem_of_reverse, lstrip_elem; [|done].
  apply elem_of_reverse. by apply lstrip_elem.
Qed.

(** The items of a list read from a variable that is set are never empty
    and carry no white space at their ends, whatever characters count as
    white space; and no piece between separators that holds another
    character is lost: it is among the items, stripped. *)
Theorem env_list_items (a : char) v default separator items :
  get_env_list isspace (Some (a :: v)) default separator = Ok items →
  Forall (λ item, item ≠ [] ∧ stripped item) items
  ∧ ∀ parts part c,
      split (a :: v) separator = Ok parts →
      part ∈ parts → c ∈ part → isspace c = false →
      strip part ∈ items.
Proof.
  unfold get_env_list.
  destruct (split (a :: v) separator) as [parts|e]; simpl; [|done].
  intros [= <-]. split.
  - apply Forall_forall. intros item.
    rewrite list_elem_of_fmap. intros (part & -> & Hp).
    apply list_elem_of_filter in Hp as [Ht _]. split.
    + unfold truthy in Ht. by apply bool_decide_eq_true in Ht.
    + apply strip_stripped.
  - intros parts' part c [= <-] Hpart Hc Hs.
    apply list_elem_of_fmap. exists part. split; [done|].
    apply list_elem_of_filter. split; [|done].
    unfold truthy. apply bool_decide_eq_true.
    intros Hnil. apply (strip_elem part c) in Hc; [|done].
    rewrite Hnil in Hc. by apply elem_of_nil in Hc.
Qed.

(** Round trip: a list of items that are not empty, carry no white space at
    their ends and do not contain the separator is read back from the
    variable that holds them joined by the separator. *)
Theorem env_list_round_trip (c : char) (items : list (list char)) default :
  items ≠ [] →
  Forall (λ item, item ≠ [] ∧ stripped item ∧ c ∉ item) items →
  get_env_list isspace (Some (join [c] items)) default [c] = Ok items.
Proof.
  intros Hne Hall. destruct items as [|item items]; [done|].
  apply Forall_cons in Hall as Hall'. destruct Hall' as [(Hitem & _ & _) _].
  assert (∃ a s, join [c] (item :: items) = a :: s) as (a & s & Hjoin).
  { destruct item as [|a item]; [done|].
    destruct items; simpl; by eexists _, _. }
  unfold get_env_list. rewrite Hjoin, <- Hjoin. unfold split.
  rewrite split_join; [|done|].
  2:{ eapply Forall_impl; [exact Hall|]. naive_solver. }
  unfold mbind, result_bind. f_equal.
  rewrite filter_all.
  - rewrite <- (list_fmap_id (item :: items)) at 2.
    apply Forall_fmap_ext_1. eapply Forall_impl; [exact Hall|].
    intros x (_ & Hx & _). by apply strip_id.
  - eapply Forall_impl; [exact Hall|].
    intros x (Hx & Hs & _). rewrite strip_id by done.
    unfold truthy. by apply bool_decide_eq_true.
Qed.

End EnvUtilsFacts.


(** ** Concrete runs *)

Lemma process_row_no_index_error_witness :
  (6 ≤ length Examples.ragged_row)%nat
  ∧ process_row Py.int ["Python"; "Rust"; "Go"] ∅ Examples.ragged_row
    ≠ Raise IndexError.
Proof.
  split; [simpl; lia|].
  apply (process_row_no_index_error Py.int ["Python"; "Rust"; "Go"] ∅
           Examples.ragged_row).
  simpl. lia.
Defined.

(** C10 as stated fails: a row of 7 fields whose [lines_of_code] is no
    integer literal makes the loop body raise. *)
Lemma bad_row_raises :
  (6 ≤ length Examples.bad_row)%nat
  ∧ ¬ succeeds (process_row Py.int ["Python"] ∅ Examples.bad_row)
  ∧ process_row Py.int ["Python"] ∅ Examples.bad_row = Raise ValueError.
Proof. split; [simpl; lia|]. split; [|reflexivity]. intros H. exact H. Qed.

(** C6 as stated fails: without input files nothing is written. *)
Lemma no_files_nothing_written :
  written (main Py.int []) = None
  ∧ main Py.int []
    ≠ Written [[Str "date"; Str "total_loc"]; [Str INITIAL_DATE; Int 0]].
Proof. split; [reflexivity|discriminate]. Qed.

Lemma no_input_no_output_witness :
  main Py.int [[Examples.header_of []]; [[]]]
  = Written [[Str "date"; Str "total_loc"]; [Str INITIAL_DATE; Int 0]].
Proof.
  apply (no_input_no_output Py.int); [discriminate|].
  repeat constructor.
  - exists (Examples.header_of []). split; [reflexivity|simpl; lia].
  - exists []. split; [reflexivity|simpl; lia].
Defined.

(** C1 fails on a header with a language column named [total_loc]: the
    record satisfies its invariant (3 = 2 + 1), but the field under that
    column is added to the entry of the total, which is also the entry read
    for the column. The row written has total 4 and language values 2 and 4. *)
Lemma total_loc_column_breaks_total :
  Forall (record_invariant Py.int) (all_records Examples.collision_input)
  ∧ main Py.int Examples.collision_input
    = Written [[Str "date"; Str "total_loc"; Str "A"; Str "total_loc"];
               [Str INITIAL_DATE; Int 0; Int 0; Int 0];
               [Str Examples.new_year; Int 4; Int 2; Int 4]]
  ∧ row_total [Str Examples.new_year; Int 4; Int 2; Int 4]
    ≠ sum_with id (row_language_values [Str Examples.new_year; Int 4; Int 2; Int 4]).
Proof.
  split; [|split].
  - repeat constructor.
  - vm_compute. reflexivity.
  - vm_compute. discriminate.
Qed.

(** C3 fails on the same kind of header: the only record of the date has an
    empty field under the language column [total_loc], yet the column holds
    5, the [lines_of_code] of the record, where it should hold 0. *)
Lemma total_loc_column_not_zero :
  (∀ r, r ∈ on_date Examples.new_year (all_records Examples.empty_collision_input) →
        record_language Py.int "total_loc" r = 0)
  ∧ main Py.int Examples.empty_collision_input
    = Written [[Str "date"; Str "total_loc"; Str "total_loc"];
               [Str INITIAL_DATE; Int 0; Int 0];
               [Str Examples.new_year; Int 5; Int 5]].
Proof.
  split.
  - intros r Hr. vm_compute in Hr.
    apply list_elem_of_singleton in Hr as ->. reflexivity.
  - vm_compute. reflexivity.
Qed.

(** C2 as stated fails: without input files no anchor row is written. *)
Lemma no_files_no_anchor_row :
  ¬ ∃ header rest,
      main Py.int []
      = Written (header :: (Str INITIAL_DATE :: replicate (length header - 1) (Int 0))
                        :: rest).
Proof. intros (header & rest & H). discriminate H. Qed.

Lemma anchor_row_first_witness :
  ∃ header rest,
    [[Str "date"; Str "total_loc"; Str "Python"];
     [Str INITIAL_DATE; Int 0; Int 0];
     [Str Examples.new_year; Int 3; Int 3]]
    = header :: (Str INITIAL_DATE :: replicate (length header - 1) (Int 0)) :: rest
    ∧ Forall (λ row, row_date row ≠ INITIAL_DATE) rest
    ∧ main Py.int (without_anchor_records <$> Examples.anchored_input)
      = Written [[Str "date"; Str "total_loc"; Str "Python"];
                 [Str INITIAL_DATE; Int 0; Int 0];
                 [Str Examples.new_year; Int 3; Int 3]].
Proof.
  apply (anchor_row_first Py.int Examples.anchored_input).
  vm_compute. reflexivity.
Defined.

(** C4 as stated fails: a record dated before the anchor is written below
    the anchor row, so the dates of the rows are not increasing. *)
Lemma early_date_after_anchor :
  main Py.int Examples.early_input
  = Written [[Str "date"; Str "total_loc"; Str "Python"];
             [Str INITIAL_DATE; Int 0; Int 0];
             [Str "2023-05-01 10:00:00"; Int 7; Int 7]]
  ∧ ¬ StronglySorted date_lt
        (row_date <$> [[Str INITIAL_DATE; Int 0; Int 0];
                       [Str "2023-05-01 10:00:00"; Int 7; Int 7]]).
Proof.
  split; [vm_compute; reflexivity|].
  intros [Hlt _]%StronglySorted_cons.
  apply Forall_cons in Hlt as [[Hle _] _].
  vm_compute in Hle. exact Hle.
Qed.

Lemma dates_increasing_after_anchor_witness :
  (∃ header anchor rest,
     [[Str "date"; Str "total_loc"; Str "Python"];
      [Str INITIAL_DATE; Int 0; Int 0];
      [Str "2023-05-01 10:00:00"; Int 7; Int 7]]
     = header :: anchor :: rest
     ∧ row_date anchor = INITIAL_DATE
     ∧ StronglySorted date_lt (row_date <$> rest)
     ∧ (StronglySorted date_lt (row_date <$> anchor :: rest)
        ↔ ∀ r, r ∈ all_records Examples.early_input →
               record_date r ≠ INITIAL_DATE →
               date_lt INITIAL_DATE (record_date r)))
  ∧ ∀ t1 t2, Py.in_range t1 → Py.in_range t2 →
             date_lt (Py.strftime t1) (Py.strftime t2) ↔ Py.earlier t1 t2.
Proof.
  apply (dates_increasing_after_anchor Py.int Examples.early_input).
  vm_compute. reflexivity.
Defined.

(** C5 as stated fails at the anchor date: two series report 100 lines on
    it, and the row of that date holds 0 in every column. *)
Lemma anchor_date_not_summed :
  main Py.int [Examples.series_A INITIAL_DATE; Examples.series_B INITIAL_DATE]
  = Written [[Str "date"; Str "total_loc"; Str "A"; Str "B"];
             [Str INITIAL_DATE; Int 0; Int 0; Int 0]]
  ∧ filter (λ row, row_date row = INITIAL_DATE)
      [[Str INITIAL_DATE; Int 0; Int 0; Int 0]]
    ≠ [[Str INITIAL_DATE; Int 200; Int 100; Int 100]].
Proof. split; [vm_compute; reflexivity|]. vm_compute. discriminate. Qed.

(** The instance the claim names: 100 lines of A and 100 lines of B on one
    date give the row 200, 100, 100. *)
Lemma same_date_records_are_summed_witness :
  head [[Str "date"; Str "total_loc"; Str "A"; Str "B"];
        [Str INITIAL_DATE; Int 0; Int 0; Int 0];
        [Str Examples.new_year; Int 200; Int 100; Int 100]]
  = Some (Str <$> "date" :: "total_loc"
            :: output_languages [Examples.series_A Examples.new_year;
                                 Examples.series_B Examples.new_year])
  ∧ filter (λ row, row_date row = Examples.new_year)
      (drop 1 [[Str "date"; Str "total_loc"; Str "A"; Str "B"];
               [Str INITIAL_DATE; Int 0; Int 0; Int 0];
               [Str Examples.new_year; Int 200; Int 100; Int 100]])
    = [ [Str Examples.new_year;
         Int (sum_with (record_total Py.int)
                (on_date Examples.new_year
                   (all_records [Examples.series_A Examples.new_year;
                                 Examples.series_B Examples.new_year])))]
        ++ ((λ L, Int (sum_with (record_language Py.int L)
                         (on_date Examples.new_year
                            (all_records [Examples.series_A Examples.new_year;
                                          Examples.series_B Examples.new_year]))))
              <$> output_languages [Examples.series_A Examples.new_year;
                                    Examples.series_B Examples.new_year]) ].
Proof.
  apply (same_date_records_are_summed Py.int
           [Examples.series_A Examples.new_year; Examples.series_B Examples.new_year]).
  - vm_compute. reflexivity.
  - vm_compute. discriminate.
  - vm_compute. discriminate.
  - apply (bool_decide_unpack _). vm_compute. exact I.
Defined.

Lemma two_series_example :
  main Py.int [Examples.series_A Examples.new_year; Examples.series_B Examples.new_year]
  = Written [[Str "date"; Str "total_loc"; Str "A"; Str "B"];
             [Str INITIAL_DATE; Int 0; Int 0; Int 0];
             [Str Examples.new_year; Int 200; Int 100; Int 100]].
Proof. vm_compute. reflexivity. Qed.

Lemma short_row_is_skipped_witness :
  process_row Py.int ["Python"] ∅ ["a"; "b"; "c"] = Ok ∅
  ∧ main Py.int [[Examples.header_of ["Python"];
                  ["a"; "b"; "c"];
                  Examples.row_of Examples.new_year "3" ["3"]]]
    = main Py.int [[Examples.header_of ["Python"];
                    Examples.row_of Examples.new_year "3" ["3"]]].
Proof.
  destruct (short_row_is_skipped Py.int ["Python"] ∅ ["a"; "b"; "c"]) as [H1 H2].
  - simpl. lia.
  - split; [exact H1|].
    exact (H2 [] [] (Examples.header_of ["Python"]) []
              [Examples.row_of Examples.new_year "3" ["3"]]).
Defined.

Lemma aggregation_order_independent_witness :
  written (main Py.int [Examples.series_A Examples.new_year;
                        Examples.series_B Examples.new_year])
  = written (main Py.int [Examples.series_B Examples.new_year;
                          Examples.series_A Examples.new_year]).
Proof.
  apply (aggregation_order_independent Py.int). apply Permutation_swap.
Defined.

(** C9 fails when the write of a row raises: commits of 10, 12, 15 and 9
    lines are all counted and the write of the row of the second raises. The
    third commit follows the commit of 10 lines among those recorded, which
    makes its delta 5; the row written has the delta 3 = 15 - 12, taken
    against the commit that has no row. *)
Lemma write_failure_shifts_delta :
  Builder.combined_series "repo" ["Python"] true
    MoreExamples.commits_and_writes
  = [[Str "repo"; Str "initial"; Str INITIAL_DATE; Str "N/A";
      Int 0; Int 0; Int 0];
     [Str "repo"; Str "1111111"; Str "2025-01-01 10:00:00"; Str "ann";
      Int 10; Int 10; Int 10];
     [Str "repo"; Str "3333333"; Str "2025-01-03 10:00:00"; Str "ann";
      Int 15; Int 3; Int 15];
     [Str "repo"; Str "4444444"; Str "2025-01-04 10:00:00"; Str "ann";
      Int 9; Int (-6); Int 9]].
Proof. vm_compute. reflexivity. Qed.


(** ** Concrete runs of the further properties *)

Lemma output_columns_witness :
  head [[Str "date"; Str "total_loc"; Str "A"; Str "B"];
        [Str INITIAL_DATE; Int 0; Int 0; Int 0];
        [Str Examples.new_year; Int 100; Int 100; Int 0];
        [Str MoreExamples.february; Int 100; Int 0; Int 100]]
  = Some (Str <$> "date" :: "total_loc" :: output_languages MoreExamples.two_dates)
  ∧ Sorted String.le (output_languages MoreExamples.two_dates)
  ∧ NoDup (output_languages MoreExamples.two_dates)
  ∧ (∀ L, L ∈ output_languages MoreExamples.two_dates
          ↔ L ∈ header_languages MoreExamples.two_dates)
  ∧ Forall (λ row, length row
                   = (2 + length (output_languages MoreExamples.two_dates))%nat)
      [[Str "date"; Str "total_loc"; Str "A"; Str "B"];
       [Str INITIAL_DATE; Int 0; Int 0; Int 0];
       [Str Examples.new_year; Int 100; Int 100; Int 0];
       [Str MoreExamples.february; Int 100; Int 0; Int 100]].
Proof.
  apply (output_columns Py.int MoreExamples.two_dates).
  vm_compute. reflexivity.
Defined.

Lemma total_is_sum_of_languages_witness :
  Forall (λ row, row_total row = sum_with id (row_language_values row))
    (drop 1 [[Str "date"; Str "total_loc"; Str "A"; Str "B"];
             [Str INITIAL_DATE; Int 0; Int 0; Int 0];
             [Str Examples.new_year; Int 100; Int 100; Int 0];
             [Str MoreExamples.february; Int 100; Int 0; Int 100]]).
Proof.
  apply (total_is_sum_of_languages Py.int MoreExamples.two_dates).
  - vm_compute. reflexivity.
  - apply (bool_decide_unpack _). vm_compute. exact I.
  - repeat constructor.
Defined.

Lemma absent_language_is_zero_witness :
  [Str Examples.new_year; Int 100; Int 100; Int 0] !! (2 + 1)%nat
  = Some (Int 0).
Proof.
  apply (absent_language_is_zero Py.int MoreExamples.two_dates
           [[Str "date"; Str "total_loc"; Str "A"; Str "B"];
            [Str INITIAL_DATE; Int 0; Int 0; Int 0];
            [Str Examples.new_year; Int 100; Int 100; Int 0];
            [Str MoreExamples.february; Int 100; Int 0; Int 100]]
           Examples.new_year "B" 1).
  - vm_compute. reflexivity.
  - vm_compute. reflexivity.
  - discriminate.
  - intros r Hr. vm_compute in Hr.
    apply list_elem_of_singleton in Hr as ->. reflexivity.
  - simpl. apply list_elem_of_further, list_elem_of_here.
  - reflexivity.
Defined.

Lemma main_writes_only_if_witness :
  [Examples.series_A Examples.new_year] ≠ []
  ∧ Forall (convertible_file Py.int) [Examples.series_A Examples.new_year].
Proof.
  eapply (main_writes_only_if Py.int [Examples.series_A Examples.new_year]).
  vm_compute. reflexivity.
Defined.

Lemma main_crash_kinds_witness :
  ValueError ≠ IndexError
  ∧ (ValueError = StopIteration
     → [] ∈ [[Examples.header_of ["Python"]; Examples.bad_row]])
  ∧ (ValueError = ValueError
     → ∃ r, r ∈ all_records [[Examples.header_of ["Python"]; Examples.bad_row]]
            ∧ ¬ row_convertible Py.int r.1 r.2).
Proof.
  apply (main_crash_kinds Py.int [[Examples.header_of ["Python"]; Examples.bad_row]]).
  vm_compute. reflexivity.
Defined.

Lemma empty_file_stops_run_witness :
  main Py.int ([[Examples.header_of []]] ++ [] :: [MoreExamples.good_row :: []])
  = Crashed StopIteration.
Proof.
  apply (empty_file_stops_run Py.int [[Examples.header_of []]]).
  constructor; [|constructor]. split; [discriminate|]. constructor.
Defined.

Lemma identity_fields_unused_witness :
  process_row Py.int ["Python"] ∅ (<[0%nat := "another"]> MoreExamples.good_row)
  = process_row Py.int ["Python"] ∅ MoreExamples.good_row.
Proof.
  apply (identity_fields_unused Py.int). apply list_elem_of_here.
Defined.

Lemma delta_converted_but_unused_witness :
  (¬ convertible Py.int (field MoreExamples.good_row 5) →
   process_row Py.int ["Python"] ∅ MoreExamples.good_row = Raise ValueError)
  ∧ ∀ d, convertible Py.int (field MoreExamples.good_row 5) →
         convertible Py.int d →
         process_row Py.int ["Python"] ∅ (<[5%nat := d]> MoreExamples.good_row)
         = process_row Py.int ["Python"] ∅ MoreExamples.good_row.
Proof.
  apply (delta_converted_but_unused Py.int).
  - simpl. lia.
  - intros _. vm_compute. eauto.
Defined.

Lemma extra_fields_ignored_witness :
  process_row Py.int ["Python"] ∅ (MoreExamples.good_row ++ ["x"; "y"])
  = process_row Py.int ["Python"] ∅ MoreExamples.good_row.
Proof. apply (extra_fields_ignored Py.int). simpl. lia. Defined.

Lemma one_row_per_date_witness :
  length [[Str "date"; Str "total_loc"; Str "A"; Str "B"];
          [Str INITIAL_DATE; Int 0; Int 0; Int 0];
          [Str Examples.new_year; Int 100; Int 100; Int 0];
          [Str MoreExamples.february; Int 100; Int 0; Int 100]]
  = (2 + size (record_dates (all_records MoreExamples.two_dates)
               ∖ {[INITIAL_DATE]}))%nat.
Proof.
  apply (one_row_per_date Py.int MoreExamples.two_dates).
  vm_compute. reflexivity.
Defined.

Lemma deltas_add_up_witness :
  sum_with Series.row_delta
    (Builder.combined_rows
       (Builder.commit_loop "repo" ["Python"]
          {| Builder.prev_total_lines := 0; Builder.repo_rows := [];
             Builder.combined_rows := [] |} 0 MoreExamples.all_written))
  = 15.
Proof.
  rewrite (deltas_add_up "repo" ["Python"] MoreExamples.all_written).
  - vm_compute. reflexivity.
  - repeat constructor.
Defined.

Lemma combined_series_invariant_witness :
  Forall (λ row, Series.row_total_loc row
                 = sum_with id (Series.row_language_values row))
         (Builder.combined_series "repo" ["Python"] true
            MoreExamples.commits_and_writes).
Proof.
  apply (combined_series_invariant "repo" ["Python"] true
           MoreExamples.commits_and_writes).
  - apply (bool_decide_unpack _). vm_compute. exact I.
  - repeat constructor; intros data [= <-];
      apply (bool_decide_unpack _); vm_compute; exact I.
Defined.

Lemma discovered_languages_witness :
  [MoreExamples.analysed_1; MoreExamples.analysed_2]
  = [MoreExamples.analysed_1; MoreExamples.analysed_2]
  ∧ StronglySorted date_lt ["Python"]
  ∧ ∀ L, L ∈ ["Python"]
         ↔ (L ∉ ["header"; "SUM"])
           ∧ ∃ c cloc_data,
               c ∈ [MoreExamples.analysed_1; MoreExamples.analysed_2]
               ∧ Discovery.keys c = Some cloc_data ∧ L ∈ cloc_data.
Proof.
  apply (discovered_languages true true
           [MoreExamples.analysed_1; MoreExamples.analysed_2]).
  vm_compute. reflexivity.
Defined.

Lemma two_passes_count_every_language_witness :
  10 = sum_with (λ e, default 0 e.2)
         (filter (λ e, e.1 ∉ ["header"; "SUM"])
            [("header", None); ("Python", Some 10); ("SUM", Some 10)]).
Proof.
  apply (two_passes_count_every_language MoreExamples.first_pass_inputs
           true true
           [MoreExamples.analysed_1; MoreExamples.analysed_2; MoreExamples.analysed_1]
           ["Python"] MoreExamples.analysed_1 Examples.commit_1).
  - apply list_elem_of_here.
  - vm_compute. reflexivity.
  - apply list_elem_of_here.
  - reflexivity.
  - reflexivity.
  - vm_compute. reflexivity.
Defined.

(** A variable whose value begins with a no-break space and holds an item
    of white space only. *)
Lemma env_list_items_witness :
  Forall (λ item, item ≠ [] ∧ EnvUtils.stripped EnvUtils.isspace item)
         [[97; 47; 98]; [99; 32; 100]]%N
  ∧ ∀ parts part c,
      EnvUtils.split [160; 97; 47; 98; 44; 8195; 160; 44; 99; 32; 100; 133]%N
                     [44%N] = Ok parts →
      part ∈ parts → c ∈ part → EnvUtils.isspace c = false →
      EnvUtils.strip EnvUtils.isspace part ∈ [[97; 47; 98]; [99; 32; 100]]%N.
Proof.
  apply (env_list_items EnvUtils.isspace 160%N
           [97; 47; 98; 44; 8195; 160; 44; 99; 32; 100; 133]%N None [44%N]).
  vm_compute. reflexivity.
Defined.

Lemma env_list_round_trip_witness :
  EnvUtils.get_env_list EnvUtils.isspace
    (Some (EnvUtils.join [44%N] [[97; 47; 98]; [99; 160; 100]]%N)) None [44%N]
  = Ok [[97; 47; 98]; [99; 160; 100]]%N.
Proof.
  apply (env_list_round_trip EnvUtils.isspace 44%N
           [[97; 47; 98]; [99; 160; 100]]%N None).
  - discriminate.
  - repeat constructor; try discriminate;
      try (intros ? [= <-]; reflexivity);
      apply (bool_decide_unpack _); vm_compute; exact I.
Defined.

Lemma last_segment_spec_witness :
  Utils.last_segment ("burhop" +:+ "/" +:+ "aiserver") = Ok "aiserver"
  ∧ Utils.last_segment "aiserver" = Ok "aiserver".
Proof.
  apply last_segment_spec. apply (bool_decide_unpack _). vm_compute. exact I.
Defined.
